(** * monkit/present: request dispatch and trace matching

    A shallow embedding of [present/path.go]: the path dispatcher
    [FromRequest], its helper [shift], the span matcher it builds from the
    query parameters, and the buffering wrapper every successful result is
    put in.  The Go library functions the file calls ([strings], [strconv],
    [bufio], [net/url]) are embedded from their documented behaviour; the
    regular-expression engine and the renderers of the package are
    parameters. *)

From Stdlib Require Import ZArith Lia Ascii String List Bool.
From stdpp Require Import base option gmap strings list.

Open Scope string_scope.
Open Scope list_scope.
Open Scope Z_scope.

(** ** Errors

    Go [error] values.  The two error classes of the package
    ([BadRequest] and [NotFound], path.go lines 30-33) make errors with
    [Class.New(format, args...)]; such an error is kept as its class, its
    format string and its arguments.  The other constructors are the errors
    of the libraries the file calls. *)
Inductive ErrorClass := BadRequest | NotFound.

Inductive NumErrKind := ErrSyntax | ErrRange.

Inductive error :=
| ClassError (class : ErrorClass) (format : string) (args : list fmt_arg)
| NumError (Func Num : string) (Err : NumErrKind)
| ErrShortWrite
| OtherError (msg : string)
with fmt_arg :=
| ArgString (s : string)
| ArgError (e : error).

Definition New (class : ErrorClass) (format : string) (args : list fmt_arg) : error :=
  ClassError class format args.

(** The class an error was made by, if any. *)
Definition error_class (e : error) : option ErrorClass :=
  match e with
  | ClassError c _ _ => Some c
  | _ => None
  end.

(** ** Package [strings] *)
Module GoStrings.

Fixpoint ContainsByte (cutset : string) (c : ascii) : bool :=
  match cutset with
  | EmptyString => false
  | String d cutset' => if Ascii.eqb d c then true else ContainsByte cutset' c
  end.

(** [strings.TrimLeft(s, cutset)]: [s] without its longest prefix made
    of bytes of [cutset]. *)
Fixpoint TrimLeft (s cutset : string) : string :=
  match s with
  | EmptyString => EmptyString
  | String c s' => if ContainsByte cutset c then TrimLeft s' cutset else s
  end.

(** [strings.Index(s, substr)]: index of the first instance of [substr]
    in [s], or -1. *)
Definition Index (s substr : string) : Z :=
  match String.index 0 substr s with
  | Some i => Z.of_nat i
  | None => -1
  end.

(** The slice expressions [s[:i]] and [s[i:]] for [0 <= i <= len(s)]. *)
Definition slice_to (s : string) (i : Z) : string :=
  String.substring 0 (Z.to_nat i) s.

Definition slice_from (s : string) (i : Z) : string :=
  String.substring (Z.to_nat i) (String.length s - Z.to_nat i) s.

End GoStrings.

(** ** Package [strconv] *)
Module strconv.

Definition syntaxError (fn str : string) : error := NumError fn str ErrSyntax.
Definition rangeError (fn str : string) : error := NumError fn str ErrRange.

(** [strconv.ParseBool] *)
Definition ParseBool (str : string) : bool * option error :=
  if (String.eqb str "1" || String.eqb str "t" || String.eqb str "T"
      || String.eqb str "true" || String.eqb str "TRUE" || String.eqb str "True")%bool
  then (true, None)
  else if (String.eqb str "0" || String.eqb str "f" || String.eqb str "F"
      || String.eqb str "false" || String.eqb str "FALSE" || String.eqb str "False")%bool
  then (false, None)
  else (false, Some (syntaxError "ParseBool" str)).

Definition byte_val (c : ascii) : Z := Z.of_N (N_of_ascii c).

(** [lower(c)] is [c | ('x' - 'X')]. *)
Definition lower (c : Z) : Z := Z.lor c 32.

(** The value of one digit byte, [None] for a byte that is no digit in any
    base up to 36. *)
Definition digit (c : ascii) : option Z :=
  let c := byte_val c in
  if (48 <=? c) && (c <=? 57) then Some (c - 48)
  else if (97 <=? lower c) && (lower c <=? 122) then Some (lower c - 97 + 10)
  else None.

Definition maxUint64 : Z := 2 ^ 64 - 1.

(** What the digit loop of [ParseUint] ends with. *)
Inductive scan := Scanned (n : Z) | BadSyntax | OutOfRange.

(** The loop [for _, c := range []byte(s)] of [ParseUint], from the
    accumulator [n]; [n * base] and [n + d] are the 64-bit operations. *)
Fixpoint ParseUint_loop (base cutoff maxVal : Z) (s : string) (n : Z) : scan :=
  match s with
  | EmptyString => Scanned n
  | String c s' =>
      match digit c with
      | None => BadSyntax
      | Some d =>
          if base <=? d then BadSyntax
          else if cutoff <=? n then OutOfRange
          else
            let n := (n * base) mod 2 ^ 64 in
            let n1 := (n + d) mod 2 ^ 64 in
            if (n1 <? n) || (maxVal <? n1) then OutOfRange
            else ParseUint_loop base cutoff maxVal s' n1
      end
  end.

(** [strconv.ParseUint(s, base, bitSize)] for [2 <= base <= 36] and
    [1 <= bitSize <= 64] (path.go calls it with 16 and 64; the prefix and
    underscore handling of base 0 is not needed). *)
Definition ParseUint (s : string) (base bitSize : Z) : Z * option error :=
  if String.eqb s "" then (0, Some (syntaxError "ParseUint" s))
  else
    let cutoff := maxUint64 / base + 1 in
    let maxVal := 2 ^ bitSize - 1 in
    match ParseUint_loop base cutoff maxVal s 0 with
    | Scanned n => (n, None)
    | BadSyntax => (0, Some (syntaxError "ParseUint" s))
    | OutOfRange => (maxVal, Some (rangeError "ParseUint" s))
    end.

End strconv.

(** The conversion [int64(x)] of a [uint64]: same bits, read as two's
    complement. *)
Definition int64 (x : Z) : Z := (x + 2 ^ 63) mod 2 ^ 64 - 2 ^ 63.

(** ** Package [net/url] *)
Module url.

(** [url.Values] is [map[string][]string]. *)
Abbreviation Values := (gmap string (list string)).

(** [Values.Get]: the first value of the key, the empty string when there
    is none. *)
Definition Get (v : Values) (key : string) : string :=
  match v !! key with
  | Some (x :: _) => x
  | _ => ""
  end.

End url.

(** ** [shift] (path.go, lines 203-210) *)
Definition shift (path : string) : string * string :=
  let path := GoStrings.TrimLeft path "/" in
  let split := GoStrings.Index path "/" in
  if split =? -1 then (path, "")
  else (GoStrings.slice_to path split, GoStrings.slice_from path split).

(** ** The monitoring registry

    Modelled from the spec: the registry package ([monkit.Registry],
    [monkit.Func], [monkit.Span], [monkit.Trace]) is not part of the
    sources at hand.  The spec's Entity Source "supplies enumerable
    functions, spans, and traces; each function has a stable full name; each
    span belongs to a function and a trace; each trace has a numeric
    identifier".  A [Func] value stands for a [*monkit.Func]: two of them
    are the same pointer exactly when they are equal. *)
Record Func := { Func_addr : positive; FullName : string }.

#[global] Instance Func_eq_dec : EqDecision Func.
Proof. solve_decision. Defined.

#[global] Instance Func_countable : Countable Func.
Proof.
  refine (inj_countable' (fun f => (Func_addr f, FullName f))
                         (fun p => {| Func_addr := p.1; FullName := p.2 |}) _).
  intros []; reflexivity.
Defined.

(** [Trace.Id()] is an [int64]. *)
Record Trace := { Id : Z }.

Record Span := { Span_Func : Func; Span_Trace : Trace }.

(** A [*monkit.Registry] is a reference; what a registry knows lives in
    the store and grows as functions are first observed. *)
Definition Registry := positive.

Abbreviation Registries := (gmap positive (list Func)).

(** Modelled from the spec: [reg.Funcs(cb)] calls [cb] on "all functions
    currently known to the registry"; [Registry_Funcs] lists them in the
    order of the enumeration. *)
Definition Registry_Funcs (h : Registries) (reg : Registry) : list Func :=
  default [] (h !! reg).

(** Modelled from the spec: a function is registered when it is first
    observed by the process. *)
Definition register (reg : Registry) (f : Func) (h : Registries) : Registries :=
  <[reg := Registry_Funcs h reg ++ [f]]> h.

(** ** The regular-expression engine

    Package [regexp] is a parameter of the development: a compiler of
    patterns that may fail, and the match test of a compiled pattern. *)
Class RegexpLib := {
  Regexp : Type;
  Compile : string -> Regexp + error;
  MatchString : Regexp -> string -> bool
}.

(** ** Results

    A [Result] is a Go function value of type [func(io.Writer) error]:
    [nil] (here [Nil]), or a closure.  Each function literal of path.go is a constructor
    that carries the variables the literal captures; [SpansText] and its
    siblings are the renderers of the package that [curry] binds to a
    registry. *)
Inductive Renderer :=
| SpansText | SpansDot | SpansJSON | FuncsText | FuncsDot | FuncsJSON.

Inductive Result :=
| Nil                                                             (* the nil function value *)
| curry (reg : Registry) (f : Renderer)                           (* lines 39-44 *)
| stats_text (reg : Registry) (prefix : string)                   (* lines 125-127 *)
| stats_json (reg : Registry) (prefix : string)                   (* lines 129-131 *)
| trace_svg (reg : Registry) (spanMatcher : Span -> bool)         (* lines 191-193 *)
| trace_json (reg : Registry) (spanMatcher : Span -> bool)        (* lines 195-197 *)
| buffering (unbuffered : Result).                                (* lines 87-95 *)

(** ** [FromRequest] (path.go, lines 78-201) *)

(** The map [funcs] filled by the callback given to [reg.Funcs]
    (lines 162-167), and the index expression [funcs[f]] (line 172),
    which is [false] for a missing key. *)
Definition preselected (fnMatcher : Func -> bool) (known : list Func) : gmap Func bool :=
  foldl (fun funcs f => if fnMatcher f then <[f := true]> funcs else funcs) ∅ known.

Definition map_index (funcs : gmap Func bool) (f : Func) : bool :=
  default false (funcs !! f).

Section Dispatch.
Context `{RegexpLib}.

(** Lines 153-160: [preselect] and the error of parsing it. *)
Definition preselect_of (query : url.Values) : bool * option error :=
  if negb (String.eqb (url.Get query "preselect") "")
  then strconv.ParseBool (url.Get query "preselect")
  else (true, None).

(** Lines 143-174: the function matcher of a non-empty [regexStr]. *)
Definition fnMatcher_regex (h : Registries) (reg : Registry) (query : url.Values)
    (regexStr : string) : (Func -> bool) + error :=
  match Compile regexStr with
  | inr err =>
      inr (New BadRequest "invalid regex %#v: %v" [ArgString regexStr; ArgError err])
  | inl re =>
      let fnMatcher := fun f : Func => MatchString re (FullName f) in
      match preselect_of query with
      | (_, Some err) =>
          inr (New BadRequest "invalid preselect %#v: %v"
                   [ArgString (url.Get query "preselect"); ArgError err])
      | (true, None) =>
          let funcs := preselected fnMatcher (Registry_Funcs h reg) in
          if Z.of_nat (size funcs) <=? 0
          then inr (New BadRequest "regex preselect matches 0 functions" [])
          else inl (fun f : Func => map_index funcs f)
      | (false, None) => inl fnMatcher
      end
  end.

(** Lines 141-174. *)
Definition fnMatcher_of (h : Registries) (reg : Registry) (query : url.Values)
    (regexStr : string) : (Func -> bool) + error :=
  if negb (String.eqb regexStr "") then fnMatcher_regex h reg query regexStr
  else inl (fun _ : Func => true).

(** Lines 176-187. *)
Definition spanMatcher_of (fnMatcher : Func -> bool) (traceIdStr : string)
    : (Span -> bool) + error :=
  if negb (String.eqb traceIdStr "") then
    match strconv.ParseUint traceIdStr 16 64 with
    | (_, Some err) =>
        inr (New BadRequest "trace_id expected to be hex unsigned 64 bit number: %#v"
                 [ArgString traceIdStr])
    | (traceId, None) =>
        inl (fun s : Span =>
               (Id (Span_Trace s) =? int64 traceId) && fnMatcher (Span_Func s))
    end
  else inl (fun s : Span => fnMatcher (Span_Func s)).

(** Lines 135-187: the span matcher of a trace request. *)
Definition trace_matcher (h : Registries) (reg : Registry) (query : url.Values)
    : (Span -> bool) + error :=
  let regexStr := url.Get query "regex" in
  let traceIdStr := url.Get query "trace_id" in
  if String.eqb regexStr "" && String.eqb traceIdStr "" then
    inr (New BadRequest
           "at least one of 'regex' or 'trace_id' query parameters required" [])
  else
    match fnMatcher_of h reg query regexStr with
    | inr err => inr err
    | inl fnMatcher => spanMatcher_of fnMatcher traceIdStr
    end.

(** Line 200, the return that every unmatched case falls through to. *)
Definition not_found (path : string) : Result * string * option error :=
  (Nil, "", Some (New NotFound "path not found: %s" [ArgString path])).

(** The statements of [FromRequest] after the [defer] (lines 98-200). *)
Definition FromRequest_body (h : Registries) (reg : Registry) (path : string)
    (query : url.Values) : Result * string * option error :=
  let '(first, rest) := shift path in
  let '(second, _) := shift rest in
  let not_found := not_found path in
  if String.eqb first "ps" then
    if String.eqb second "" || String.eqb second "text" then
      (curry reg SpansText, "text/plain; charset=utf-8", None)
    else if String.eqb second "dot" then
      (curry reg SpansDot, "text/plain; charset=utf-8", None)
    else if String.eqb second "json" then
      (curry reg SpansJSON, "application/json; charset=utf-8", None)
    else not_found
  else if String.eqb first "funcs" then
    if String.eqb second "" || String.eqb second "text" then
      (curry reg FuncsText, "text/plain; charset=utf-8", None)
    else if String.eqb second "dot" then
      (curry reg FuncsDot, "text/plain; charset=utf-8", None)
    else if String.eqb second "json" then
      (curry reg FuncsJSON, "application/json; charset=utf-8", None)
    else not_found
  else if String.eqb first "stats" then
    let prefix := url.Get query "prefix" in
    if String.eqb second "" || String.eqb second "text" then
      (stats_text reg prefix, "text/plain; charset=utf-8", None)
    else if String.eqb second "json" then
      (stats_json reg prefix, "application/json; charset=utf-8", None)
    else not_found
  else if String.eqb first "trace" then
    match trace_matcher h reg query with
    | inr err => (Nil, "", Some err)
    | inl spanMatcher =>
        if String.eqb second "svg" then
          (trace_svg reg spanMatcher, "image/svg+xml; charset=utf-8", None)
        else if String.eqb second "json" then
          (trace_json reg spanMatcher, "application/json; charset=utf-8", None)
        else not_found
    end
  else not_found.

(** The deferred function (lines 81-96): it runs on every return and
    replaces the result [f] by the buffering closure unless [err] is set. *)
Definition deferred (r : Result * string * option error)
    : Result * string * option error :=
  let '(f, contentType, err) := r in
  match err with
  | Some _ => (f, contentType, err)
  | None => (buffering f, contentType, err)
  end.

Definition FromRequest (h : Registries) (reg : Registry) (path : string)
    (query : url.Values) : Result * string * option error :=
  deferred (FromRequest_body h reg path query).

End Dispatch.

(** ** Calling a result on a writer *)

Definition bytes := list Byte.byte.

Definition len (p : bytes) : Z := Z.of_nat (length p).

(** How a call ends: it returns, it panics, the sink answered a [Write]
    with a count outside [0..len(p)] (what [bufio] does then is not
    modelled), or the loop of [bufio.Writer.Write] was not done within the
    fuel. *)
Inductive exec (A : Type) :=
| Returns (a : A)
| Panics
| BadCount
| OutOfFuel.
Arguments Returns {A} a.
Arguments Panics {A}.
Arguments BadCount {A}.
Arguments OutOfFuel {A}.

Definition exec_bind {A B : Type} (m : exec A) (k : A -> exec B) : exec B :=
  match m with
  | Returns a => k a
  | Panics => Panics
  | BadCount => BadCount
  | OutOfFuel => OutOfFuel
  end.

Notation "'let*' pat := m 'in' k" :=
  (exec_bind m (fun x => match x with pat => k end))
  (at level 10, pat pattern, m at level 100, k at level 200).

(** What a function of type [func(io.Writer) error] does with its writer:
    it returns an error or [nil], or it calls [Write] and goes on from
    the count and the error that [Write] answers. *)
Inductive Prog :=
| Return (err : option error)
| DoWrite (p : bytes) (k : Z -> option error -> Prog).

(** A [Prog] run on a writer of state [W]. *)
Fixpoint run {W : Type} (Write : W -> bytes -> exec (Z * option error * W))
    (u : Prog) (w : W) : exec (option error * W) :=
  match u with
  | Return err => Returns (err, w)
  | DoWrite p k =>
      let* (n, err, w') := Write w p in
      run Write (k n err) w'
  end.

(** The renderers of the package, which path.go only calls: what each
    writes, given the store at the time of the call. *)
Class Renderers := {
  render : Renderer -> Registries -> Registry -> Prog;
  FilteredStatsText : Registries -> Registry -> string -> Prog;
  FilteredStatsJSON : Registries -> Registry -> string -> Prog;
  TraceQuerySVG : Registries -> Registry -> (Span -> bool) -> Prog;
  TraceQueryJSON : Registries -> Registry -> (Span -> bool) -> Prog
}.

(** ** Package [bufio], over a sink

    The sink is any [io.Writer] of state [S] that is not itself a
    [*bufio.Writer], so that [bufio.NewWriter] allocates a fresh buffer. *)
Module bufio.
Section Over.
Context {S : Type} (sink_Write : S -> bytes -> Z * option error * S).

(** [buf] is [b.buf[0:b.n]] and [size] is [len(b.buf)]. *)
Record Writer := { err : option error; size : Z; buf : bytes; wr : S }.

Definition defaultBufSize : Z := 4096.

Definition NewWriter (w : S) : Writer :=
  {| err := None; size := defaultBufSize; buf := []; wr := w |}.

Definition Buffered (b : Writer) : Z := len (buf b).
Definition Available (b : Writer) : Z := size b - len (buf b).

(** [copy(b.buf[b.n:], p)]: the count, and the buffer after it. *)
Definition copy_in (b : Writer) (p : bytes) : Z * Writer :=
  let n := Z.min (Available b) (len p) in
  (n, {| err := err b; size := size b;
         buf := buf b ++ take (Z.to_nat n) p; wr := wr b |}).

Definition Flush (b : Writer) : exec (option error * Writer) :=
  match err b with
  | Some e => Returns (Some e, b)
  | None =>
      if Buffered b =? 0 then Returns (None, b)
      else
        let '(n, e, w') := sink_Write (wr b) (buf b) in
        if (n <? 0) || (Buffered b <? n) then BadCount
        else
          let e := if (n <? Buffered b) && negb (bool_decide (is_Some e))
                   then Some ErrShortWrite else e in
          match e with
          | Some e =>
              Returns (Some e, {| err := Some e; size := size b;
                                  buf := drop (Z.to_nat n) (buf b); wr := w' |})
          | None =>
              Returns (None, {| err := None; size := size b; buf := []; wr := w' |})
          end
  end.

(** The [for] loop of [Writer.Write]; it ends with the writer, what is
    left of [p] and the count [nn]. *)
Fixpoint Write_loop (fuel : nat) (b : Writer) (p : bytes) (nn : Z)
    : exec (Writer * bytes * Z) :=
  if (Available b <? len p) && negb (bool_decide (is_Some (err b))) then
    match fuel with
    | O => OutOfFuel
    | Datatypes.S fuel =>
        if Buffered b =? 0 then
          let '(n, e, w') := sink_Write (wr b) p in
          if (n <? 0) || (len p <? n) then BadCount
          else
            Write_loop fuel {| err := e; size := size b; buf := buf b; wr := w' |}
                       (drop (Z.to_nat n) p) (nn + n)
        else
          let '(n, b) := copy_in b p in
          let* (_, b) := Flush b in
          Write_loop fuel b (drop (Z.to_nat n) p) (nn + n)
    end
  else Returns (b, p, nn).

Definition Write (fuel : nat) (b : Writer) (p : bytes)
    : exec (Z * option error * Writer) :=
  let* (b, p, nn) := Write_loop fuel b p 0 in
  match err b with
  | Some e => Returns (nn, Some e, b)
  | None =>
      let '(n, b) := copy_in b p in
      Returns (nn + n, None, b)
  end.

End Over.
End bufio.

Section Call.
Context `{Renderers} {S : Type} (sink_Write : S -> bytes -> Z * option error * S).

(** The body of a closure that is not the buffering one. *)
Definition body (h : Registries) (f : Result) : option Prog :=
  match f with
  | curry reg f => Some (render f h reg)
  | stats_text reg prefix => Some (FilteredStatsText h reg prefix)
  | stats_json reg prefix => Some (FilteredStatsJSON h reg prefix)
  | trace_svg reg spanMatcher => Some (TraceQuerySVG h reg spanMatcher)
  | trace_json reg spanMatcher => Some (TraceQueryJSON h reg spanMatcher)
  | Nil | buffering _ => None
  end.

(** [f(b)] for a [*bufio.Writer] [b] with a buffer of the default size or
    more: there [bufio.NewWriter(b)] is [b] itself. *)
Fixpoint call_buffered (h : Registries) (fuel : nat) (f : Result)
    (b : bufio.Writer (S := S)) : exec (option error * bufio.Writer (S := S)) :=
  match f with
  | Nil => Panics
  | buffering unbuffered =>
      let* (err, b) := call_buffered h fuel unbuffered b in
      match err with
      | Some e => Returns (Some e, b)
      | None => bufio.Flush sink_Write b
      end
  | curry _ _ | stats_text _ _ | stats_json _ _ | trace_svg _ _ | trace_json _ _ =>
      match body h f with
      | Some u => run (bufio.Write sink_Write fuel) u b
      | None => Panics
      end
  end.

(** [f(w)] for the sink [w]; the [buffering] case is lines 87-95. *)
Definition call (h : Registries) (fuel : nat) (f : Result) (w : S)
    : exec (option error * S) :=
  match f with
  | Nil => Panics
  | buffering unbuffered =>
      let buf := bufio.NewWriter w in
      let* (err, buf) := call_buffered h fuel unbuffered buf in
      match err with
      | Some e => Returns (Some e, bufio.wr buf)
      | None =>
          let* (err, buf) := bufio.Flush sink_Write buf in
          Returns (err, bufio.wr buf)
      end
  | curry _ _ | stats_text _ _ | stats_json _ _ | trace_svg _ _ | trace_json _ _ =>
      match body h f with
      | Some u => run (fun w p => Returns (sink_Write w p)) u w
      | None => Panics
      end
  end.

End Call.

(** ** Notions used in the statements *)

Fixpoint slashes (k : nat) : string :=
  match k with
  | O => ""
  | Datatypes.S k => String "/" (slashes k)
  end.

Definition has_slash (s : string) : bool := GoStrings.ContainsByte s "/".

(** The two segments [FromRequest] looks at (lines 98-99). *)
Definition first_segment (path : string) : string := (shift path).1.
Definition second_segment (path : string) : string := (shift (shift path).2).1.

(** The dispatch table of the specification: which subformats a resource
    accepts, and the media type listed for the pair. *)
Definition in_table (resource subformat : string) : bool :=
  if String.eqb resource "ps" || String.eqb resource "funcs" then
    String.eqb subformat "" || String.eqb subformat "text"
    || String.eqb subformat "dot" || String.eqb subformat "json"
  else if String.eqb resource "stats" then
    String.eqb subformat "" || String.eqb subformat "text"
    || String.eqb subformat "json"
  else if String.eqb resource "trace" then
    String.eqb subformat "svg" || String.eqb subformat "json"
  else false.

Definition media_type (resource subformat : string) : string :=
  if String.eqb subformat "json" then "application/json"
  else if String.eqb subformat "svg" then "image/svg+xml"
  else "text/plain".

(** The value of a string of hexadecimal digits, without a bound. *)
Fixpoint hex_value_from (s : string) (acc : Z) : option Z :=
  match s with
  | EmptyString => Some acc
  | String c s' =>
      match strconv.digit c with
      | Some d => if d <? 16 then hex_value_from s' (acc * 16 + d) else None
      | None => None
      end
  end.

Definition hex_value (s : string) : option Z :=
  if String.eqb s "" then None else hex_value_from s 0.

(** What a [Prog] does while every [Write] takes all its bytes and answers
    [nil]: whether its writes fit in [room] bytes, what it has written, and
    what it returns. *)
Fixpoint fits (u : Prog) (room : Z) : bool :=
  match u with
  | Return _ => true
  | DoWrite p k => (len p <=? room) && fits (k (len p) None) (room - len p)
  end.

Fixpoint output (u : Prog) : bytes :=
  match u with
  | Return _ => []
  | DoWrite p k => p ++ output (k (len p) None)
  end.

Fixpoint outcome (u : Prog) : option error :=
  match u with
  | Return err => err
  | DoWrite p k => outcome (k (len p) None)
  end.

(** The contract of [io.Writer]: [Write] answers a count in
    [0..len(p)], and a non-nil error with a count below [len(p)]. *)
Definition obeys_Writer {S : Type}
    (sink_Write : S -> bytes -> Z * option error * S) : Prop :=
  forall (w : S) (p : bytes),
    let '(n, err, _) := sink_Write w p in
    0 <= n <= len p /\ (n < len p -> err <> None).

(** A sink that takes every write whole and without error; [contents]
    reads what it has been given so far. *)
Definition accepts_all {S : Type}
    (sink_Write : S -> bytes -> Z * option error * S) (contents : S -> bytes) : Prop :=
  forall (w : S) (p : bytes),
    exists w', sink_Write w p = (len p, None, w') /\ contents w' = contents w ++ p.

(** The closures that are not [Nil] and not the buffering one. *)
Definition is_leaf (f : Result) : Prop :=
  match f with
  | Nil | buffering _ => False
  | _ => True
  end.

(** The buffered bytes fit in the buffer. *)
Definition buf_ok {S : Type} (b : bufio.Writer (S := S)) : Prop :=
  len (bufio.buf b) <= bufio.size b.

(** What holds when the loop of [Writer.Write] is left. *)
Definition loop_done {S : Type} (b b' : bufio.Writer (S := S)) (p' : bytes) : Prop :=
  buf_ok b' /\ bufio.size b' = bufio.size b
  /\ (bufio.err b' = None -> len p' <= bufio.Available b').

(** ** Instances for closed examples *)
Module Toy.

(** A small pattern engine: it knows [.*] and [^literal$] and rejects
    every other pattern. *)
Inductive regexp := Any | Exact (s : string).

Fixpoint strip_dollar (s : string) : option string :=
  match s with
  | EmptyString => None
  | String c s' =>
      match s' with
      | EmptyString => if Ascii.eqb c "$" then Some "" else None
      | String _ _ => option_map (String c) (strip_dollar s')
      end
  end.

Definition compile (s : string) : regexp + error :=
  if String.eqb s ".*" then inl Any
  else
    match s with
    | String "^" r =>
        match strip_dollar r with
        | Some lit => inl (Exact lit)
        | None => inr (OtherError "error parsing regexp")
        end
    | _ => inr (OtherError "error parsing regexp")
    end.

Definition matches (re : regexp) (s : string) : bool :=
  match re with
  | Any => true
  | Exact lit => String.eqb lit s
  end.

#[global] Instance regexp_lib : RegexpLib :=
  {| Regexp := regexp; Compile := compile; MatchString := matches |}.

(** Renderers that all do [u]. *)
Definition renderers (u : Prog) : Renderers :=
  {| render := fun _ _ _ => u;
     FilteredStatsText := fun _ _ _ => u;
     FilteredStatsJSON := fun _ _ _ => u;
     TraceQuerySVG := fun _ _ _ => u;
     TraceQueryJSON := fun _ _ _ => u |}.

(** A sink that keeps what it is given, and a sink that takes nothing. *)
Definition keep (s : bytes) (p : bytes) : Z * option error * bytes :=
  (len p, None, s ++ p).

Definition closed (s : bytes) (p : bytes) : Z * option error * bytes :=
  (0, Some (OtherError "closed"), s).

(** A sink that takes [k] writes and then fails, and a renderer that
    writes [n] bytes twice and returns the first error it is answered. *)
Definition takes (s : nat * bytes) (p : bytes) : Z * option error * (nat * bytes) :=
  match s.1 with
  | O => (0, Some (OtherError "closed"), s)
  | Datatypes.S k => (len p, None, (k, s.2 ++ p))
  end.

Definition write_twice (n : nat) : Prog :=
  DoWrite (repeat Byte.x2a n)
    (fun _ err =>
       match err with
       | Some e => Return (Some e)
       | None => DoWrite (repeat Byte.x2a n) (fun _ err => Return err)
       end).

Definition Foo : Func := {| Func_addr := 1; FullName := "Foo" |}.
Definition Bar : Func := {| Func_addr := 2; FullName := "Bar" |}.

Definition span (f : Func) (id : Z) : Span :=
  {| Span_Func := f; Span_Trace := {| Id := id |} |}.

Definition reg : Registry := 1%positive.

(** A renderer that writes [n] bytes in one [Write] and then fails. *)
Definition render_failed : error := OtherError "render failed".

Definition write_then_fail (n : nat) : Prog :=
  DoWrite (repeat Byte.x2a n) (fun _ _ => Return (Some render_failed)).

Definition two (k1 v1 k2 v2 : string) : url.Values :=
  <[k1 := [v1]]> {[ k2 := [v2] ]}.

Definition both_missing : error :=
  New BadRequest "at least one of 'regex' or 'trace_id' query parameters required" [].

Definition query1 (k v : string) : url.Values := {[ k := [v] ]}.

End Toy.

(** * Properties *)

(** ** [shift] *)

Lemma TrimLeft_cons (c : ascii) (p : string) :
  GoStrings.TrimLeft (String c p) "/" =
  if Ascii.eqb "/" c then GoStrings.TrimLeft p "/" else String c p.
Proof.
  cbn [GoStrings.TrimLeft GoStrings.ContainsByte].
  destruct (Ascii.eqb "/" c); reflexivity.
Qed.

Lemma TrimLeft_slashes (p : string) :
  exists k, p = slashes k +:+ GoStrings.TrimLeft p "/"
    /\ (GoStrings.TrimLeft p "/" = ""
        \/ exists c t, GoStrings.TrimLeft p "/" = String c t /\ c <> "/"%char).
Proof.
  induction p as [|c p IH].
  - exists O. split; [reflexivity | now left].
  - rewrite TrimLeft_cons. destruct (Ascii.eqb_spec "/" c) as [<- | Hc].
    + destruct IH as (k & Hk & Ht). exists (Datatypes.S k).
      split; [| exact Ht].
      change (String "/" p = String "/" (slashes k +:+ GoStrings.TrimLeft p "/")).
      f_equal; exact Hk.
    + exists O. split; [reflexivity |]. right. exists c, p. split; congruence.
Qed.

Lemma has_slash_cons (c : ascii) (t : string) :
  has_slash (String c t) = if Ascii.eqb c "/" then true else has_slash t.
Proof. reflexivity. Qed.

Lemma append_empty_r (t : string) : t +:+ "" = t.
Proof.
  induction t as [|c t IH]; [reflexivity |].
  change (String c (t +:+ "") = String c t). now rewrite IH.
Qed.

Lemma substring_all (t : string) : String.substring 0 (String.length t) t = t.
Proof. induction t as [|c t IH]; [reflexivity | cbn; now rewrite IH]. Qed.

Lemma index_slash (t : string) :
  match String.index 0 "/" t with
  | None => has_slash t = false
  | Some i =>
      has_slash (String.substring 0 i t) = false
      /\ exists l, String.substring i (String.length t - i) t = String "/" l
           /\ t = String.substring 0 i t +:+ String "/" l
  end.
Proof.
  induction t as [|c t IH].
  - reflexivity.
  - cbn [String.index String.prefix].
    destruct (ascii_dec "/" c) as [<- | Hc].
    + replace (String.prefix "" t) with true by (destruct t; reflexivity).
      split; [reflexivity |]. exists t.
      cbn [String.length String.substring Nat.sub].
      rewrite substring_all. split; reflexivity.
    + destruct (String.index 0 "/" t) as [i|].
      * destruct IH as (Hd & l & Hl & Ht).
        cbn [String.length String.substring Nat.sub].
        rewrite has_slash_cons.
        destruct (Ascii.eqb_spec c "/") as [-> | _]; [congruence |].
        split; [exact Hd |]. exists l. split; [exact Hl |].
        change (String c t = String c (String.substring 0 i t +:+ String "/" l)).
        f_equal; exact Ht.
      * rewrite has_slash_cons.
        destruct (Ascii.eqb_spec c "/") as [-> | _]; [congruence | exact IH].
Qed.

(** C6.  For every path, [shift] strips the leading slashes and splits
    what is left at its first slash: the path is some slashes, then the
    first segment, which holds no slash, then the remainder, which is empty
    or starts with the slash it was split at; an empty segment leaves no
    remainder.  So [shift "/a/b/c"] is [("a", "/b/c")], [shift "a"] is
    [("a", "")] and [shift ""] is [("", "")]. *)
Theorem shift_splits_at_first_slash (path : string) :
  (exists k : nat,
      path = slashes k +:+ (shift path).1 +:+ (shift path).2
      /\ has_slash (shift path).1 = false
      /\ ((shift path).2 = "" \/ exists l, (shift path).2 = String "/" l)
      /\ ((shift path).1 = "" -> (shift path).2 = ""))
  /\ shift "/a/b/c" = ("a", "/b/c")
  /\ shift "a" = ("a", "")
  /\ shift "" = ("", "").
Proof.
  split; [| repeat split; reflexivity].
  destruct (TrimLeft_slashes path) as (k & Hk & Ht).
  exists k. unfold shift, GoStrings.Index, GoStrings.slice_to, GoStrings.slice_from.
  set (t := GoStrings.TrimLeft path "/") in *.
  pose proof (index_slash t) as Hi.
  destruct (String.index 0 "/" t) as [i|].
  - destruct Hi as (Hd & l & Hl & Ht').
    replace (Z.of_nat i =? -1) with false by (symmetry; apply Z.eqb_neq; lia).
    cbn [fst snd]. rewrite Nat2Z.id, Hl, <- Ht'.
    repeat split; [exact Hk | exact Hd | right; now exists l |].
    intros H0. rewrite H0 in Ht'. cbn in Ht'.
    destruct Ht as [Ht | (c & t' & Ht & Hc)]; rewrite Ht in Ht'; [discriminate |].
    injection Ht' as -> _. congruence.
  - cbn [fst snd]. replace (-1 =? -1) with true by reflexivity. cbn [fst snd].
    repeat split; [| exact Hi | now left].
    rewrite append_empty_r. exact Hk.
Qed.

(** ** Dispatch *)

Section DispatchFacts.
Context `{RegexpLib}.

Ltac segments path :=
  unfold FromRequest, FromRequest_body, first_segment, second_segment in *;
  let first := fresh "first" in
  let rest := fresh "rest" in
  let second := fresh "second" in
  destruct (shift path) as [first rest];
  cbn [fst snd] in *;
  destruct (shift rest) as [second ?];
  cbn [fst snd] in *.

Lemma fnMatcher_regex_bad_request h reg query regexStr err :
  fnMatcher_regex h reg query regexStr = inr err ->
  error_class err = Some BadRequest.
Proof.
  unfold fnMatcher_regex. intros Hm.
  destruct (Compile regexStr); [| injection Hm as <-; reflexivity].
  destruct (preselect_of query) as [[] [e|]];
    try (injection Hm as <-; reflexivity).
  - destruct (_ <=? 0); [injection Hm as <-; reflexivity | discriminate].
  - discriminate.
Qed.

Lemma trace_matcher_bad_request h reg query err :
  trace_matcher h reg query = inr err -> error_class err = Some BadRequest.
Proof.
  unfold trace_matcher, fnMatcher_of, spanMatcher_of. intros Hm.
  destruct (_ && _); [injection Hm as <-; reflexivity |].
  destruct (negb (String.eqb (url.Get query "regex") "")).
  - destruct (fnMatcher_regex _ _ _ _) as [m|e] eqn:Hf.
    + destruct (negb _); [| discriminate].
      destruct (strconv.ParseUint _ _ _) as [? [?|]];
        [injection Hm as <-; reflexivity | discriminate].
    + injection Hm as <-. eapply fnMatcher_regex_bad_request; eassumption.
  - destruct (negb _); [| discriminate].
    destruct (strconv.ParseUint _ _ _) as [? [?|]];
      [injection Hm as <-; reflexivity | discriminate].
Qed.

Lemma FromRequest_trace h reg path query :
  first_segment path = "trace" ->
  FromRequest h reg path query =
  match trace_matcher h reg query with
  | inr err => (Nil, "", Some err)
  | inl spanMatcher =>
      if String.eqb (second_segment path) "svg" then
        (buffering (trace_svg reg spanMatcher), "image/svg+xml; charset=utf-8", None)
      else if String.eqb (second_segment path) "json" then
        (buffering (trace_json reg spanMatcher), "application/json; charset=utf-8", None)
      else not_found path
  end.
Proof.
  intros Hf. segments path. subst first.
  cbn [String.eqb Ascii.eqb Bool.eqb].
  destruct (trace_matcher h reg query); [| reflexivity].
  destruct (String.eqb second "svg"); [reflexivity |].
  destruct (String.eqb second "json"); reflexivity.
Qed.

(** C2.  For a request whose first segment is [trace], the span matcher
    is built from the query before the second segment is looked at: when
    building it fails, [FromRequest] returns that error, of class
    [BadRequest], whatever the second segment is; with neither [regex] nor
    [trace_id] it is the error that names both parameters. *)
Theorem trace_matcher_failure_is_bad_request h reg path query err :
  first_segment path = "trace" ->
  trace_matcher h reg query = inr err ->
  FromRequest h reg path query = (Nil, "", Some err)
  /\ error_class err = Some BadRequest
  /\ (url.Get query "regex" = "" -> url.Get query "trace_id" = "" ->
      err = New BadRequest
              "at least one of 'regex' or 'trace_id' query parameters required" []).
Proof.
  intros Hf Hm. rewrite (FromRequest_trace _ _ _ _ Hf), Hm.
  split; [reflexivity |]. split; [eapply trace_matcher_bad_request; eassumption |].
  intros Hr Ht. unfold trace_matcher in Hm. rewrite Hr, Ht in Hm.
  cbn in Hm. congruence.
Qed.

Lemma FromRequest_unknown h reg path query :
  in_table (first_segment path) (second_segment path) = false ->
  first_segment path <> "trace" ->
  FromRequest h reg path query = not_found path.
Proof.
  intros Ht Hn. segments path. unfold in_table in Ht.
  destruct (String.eqb_spec first "ps") as [-> | ?].
  - cbn in Ht. repeat (apply orb_false_elim in Ht as [Ht ?]).
    cbn [String.eqb Ascii.eqb Bool.eqb].
    repeat match goal with E : String.eqb _ _ = false |- _ => rewrite E; clear E end.
    reflexivity.
  - destruct (String.eqb_spec first "funcs") as [-> | ?].
    + cbn in Ht. repeat (apply orb_false_elim in Ht as [Ht ?]).
      repeat match goal with E : String.eqb _ _ = false |- _ => rewrite E; clear E end.
      reflexivity.
    + cbn [orb] in Ht. destruct (String.eqb_spec first "stats") as [-> | ?].
      * repeat (apply orb_false_elim in Ht as [Ht ?]).
        repeat match goal with E : String.eqb _ _ = false |- _ => rewrite E; clear E end.
        reflexivity.
      * destruct (String.eqb_spec first "trace") as [-> | ?]; [congruence | reflexivity].
Qed.

(** C3, as amended.  A selector outside the dispatch table gives the
    [NotFound] error that carries the path, as for ["/bogus"]; for the
    resource [trace], where the query is examined first, this holds when a
    span matcher can be built from the query, as for ["/trace"] with a
    valid [trace_id]. *)
Theorem unknown_selector_not_found h reg path query :
  in_table (first_segment path) (second_segment path) = false ->
  (first_segment path = "trace" -> exists m, trace_matcher h reg query = inl m) ->
  FromRequest h reg path query = not_found path.
Proof.
  intros Ht Hm.
  destruct (string_dec (first_segment path) "trace") as [Hf | Hf];
    [| now apply FromRequest_unknown].
  destruct (Hm Hf) as [m Hm']. rewrite (FromRequest_trace _ _ _ _ Hf), Hm'.
  unfold in_table in Ht. rewrite Hf in Ht. cbn in Ht.
  apply orb_false_elim in Ht as [-> ->]. reflexivity.
Qed.

(** C7, as amended.  For every pair of the dispatch table, [FromRequest]
    returns a non-nil result, the buffering closure around a non-nil one,
    and the media type the table lists followed by ["; charset=utf-8"];
    for the pairs of [trace] this holds when a span matcher can be built
    from the query. *)
Theorem table_pairs_dispatch h reg path query :
  in_table (first_segment path) (second_segment path) = true ->
  (first_segment path = "trace" -> exists m, trace_matcher h reg query = inl m) ->
  exists unbuffered,
    FromRequest h reg path query =
      (buffering unbuffered,
       media_type (first_segment path) (second_segment path) +:+ "; charset=utf-8",
       None)
    /\ unbuffered <> Nil.
Proof.
  intros Ht Hm.
  destruct (string_dec (first_segment path) "trace") as [Hf | Hf].
  - destruct (Hm Hf) as [m Hm']. rewrite (FromRequest_trace _ _ _ _ Hf), Hm'.
    unfold in_table in Ht. rewrite Hf in *. cbn in Ht. unfold media_type.
    destruct (String.eqb_spec (second_segment path) "svg") as [-> | ?].
    + eexists; split; [reflexivity | discriminate].
    + destruct (String.eqb_spec (second_segment path) "json") as [Hj | ?];
        [| discriminate].
      eexists; split; [reflexivity | discriminate].
  - clear Hm. segments path. unfold in_table, media_type in *.
    destruct (String.eqb_spec first "ps") as [-> | ?];
      [| destruct (String.eqb_spec first "funcs") as [-> | ?];
         [| destruct (String.eqb_spec first "stats") as [-> | ?];
            [| destruct (String.eqb_spec first "trace"); [congruence | discriminate]]]];
      cbn [orb String.eqb Ascii.eqb Bool.eqb] in *;
      repeat match goal with
        | |- context [String.eqb second ?x] =>
            destruct (String.eqb_spec second x) as [-> | ?]
        end;
      cbn in *; try discriminate;
      (eexists; split; [reflexivity | discriminate]).
Qed.

(** C9.  An empty subformat is [text] for [ps], [funcs] and [stats]: the
    request gives what the path of the same resource with [/text] gives;
    ["ps"] and ["ps/text"] both select [SpansText] with the plain-text
    content type. *)
Theorem empty_subformat_is_text h reg path query :
  (first_segment path = "ps" \/ first_segment path = "funcs"
   \/ first_segment path = "stats") ->
  second_segment path = "" ->
  FromRequest h reg path query =
    FromRequest h reg (first_segment path +:+ "/text") query
  /\ FromRequest h reg "ps" query = FromRequest h reg "ps/text" query
  /\ FromRequest h reg "ps" query =
       (buffering (curry reg SpansText), "text/plain; charset=utf-8", None)
  /\ FromRequest h reg "funcs" query = FromRequest h reg "funcs/text" query
  /\ FromRequest h reg "stats" query = FromRequest h reg "stats/text" query.
Proof.
  intros Hf Hs. split; [| repeat split; reflexivity].
  destruct Hf as [Hf | [Hf | Hf]]; rewrite Hf;
    segments path; subst; reflexivity.
Qed.

End DispatchFacts.

(** ** [strconv.ParseUint] in base 16 *)

Lemma digit_range (c : ascii) (d : Z) : strconv.digit c = Some d -> 0 <= d.
Proof.
  unfold strconv.digit. intros Hd.
  destruct (_ && _) eqn:E1; [injection Hd as <-; lia |].
  destruct ((97 <=? _) && _) eqn:E2; [| discriminate].
  injection Hd as <-. apply andb_true_iff in E2 as [E2 _]. lia.
Qed.

Lemma hex_value_from_ge (s : string) (acc v : Z) :
  0 <= acc -> hex_value_from s acc = Some v -> acc <= v.
Proof.
  revert acc. induction s as [|c s IH]; intros acc Hacc Hv; cbn in Hv.
  - injection Hv as <-. lia.
  - destruct (strconv.digit c) as [d|] eqn:Hd; [| discriminate].
    pose proof (digit_range _ _ Hd).
    destruct (d <? 16); [| discriminate].
    apply IH in Hv; lia.
Qed.

Lemma ParseUint_loop_hex (s : string) (n : Z) :
  0 <= n < 2 ^ 64 ->
  match strconv.ParseUint_loop 16 (strconv.maxUint64 / 16 + 1) (2 ^ 64 - 1) s n with
  | strconv.Scanned v => hex_value_from s n = Some v /\ 0 <= v < 2 ^ 64
  | strconv.BadSyntax => hex_value_from s n = None
  | strconv.OutOfRange => forall v, hex_value_from s n = Some v -> 2 ^ 64 <= v
  end.
Proof.
  change (strconv.maxUint64 / 16 + 1) with (2 ^ 60).
  revert n. induction s as [|c s IH]; intros n Hn; cbn [strconv.ParseUint_loop hex_value_from].
  - split; [reflexivity | exact Hn].
  - destruct (strconv.digit c) as [d|] eqn:Hd; [| reflexivity].
    pose proof (digit_range _ _ Hd) as Hd0.
    destruct (Z.leb_spec 16 d) as [Hd16 | Hd16].
    + replace (d <? 16) with false by (symmetry; apply Z.ltb_ge; lia). reflexivity.
    + replace (d <? 16) with true by (symmetry; apply Z.ltb_lt; lia).
      destruct (Z.leb_spec (2 ^ 60) n) as [Hc | Hc].
      * intros v Hv. apply hex_value_from_ge in Hv; lia.
      * rewrite (Z.mod_small (n * 16)) by lia.
        rewrite (Z.mod_small (n * 16 + d)) by lia.
        replace (n * 16 + d <? n * 16) with false by (symmetry; apply Z.ltb_ge; lia).
        replace (2 ^ 64 - 1 <? n * 16 + d) with false by (symmetry; apply Z.ltb_ge; lia).
        cbn [orb]. apply IH. lia.
Qed.

Lemma ParseUint_hex (s : string) (v : Z) :
  strconv.ParseUint s 16 64 = (v, None) <-> hex_value s = Some v /\ v < 2 ^ 64.
Proof.
  unfold strconv.ParseUint, hex_value.
  destruct (String.eqb s ""); [split; [discriminate | intros [? _]; discriminate] |].
  pose proof (ParseUint_loop_hex s 0 ltac:(lia)) as Hl.
  destruct (strconv.ParseUint_loop _ _ _ _ _) as [n| |].
  - destruct Hl as [Hl Hn]. rewrite Hl. split.
    + intros [= <-]. split; [reflexivity | lia].
    + intros [[= <-] _]. reflexivity.
  - rewrite Hl. split; [discriminate | intros [? _]; discriminate].
  - split; [discriminate |]. intros [Hv Hlt]. apply Hl in Hv. lia.
Qed.

Lemma ParseUint_hex_range (s : string) (v : Z) :
  strconv.ParseUint s 16 64 = (v, None) -> 0 <= v < 2 ^ 64.
Proof.
  unfold strconv.ParseUint.
  destruct (String.eqb s ""); [discriminate |].
  pose proof (ParseUint_loop_hex s 0 ltac:(lia)) as Hl.
  destruct (strconv.ParseUint_loop _ _ _ _ _) as [n| |]; try discriminate.
  intros [= <-]. apply Hl.
Qed.

Lemma int64_small (v : Z) : 0 <= v < 2 ^ 63 -> int64 v = v.
Proof. intros Hv. unfold int64. rewrite Z.mod_small by lia. lia. Qed.

(** For an [int64] [i] and a [uint64] [v], [i == int64(v)] says that the
    two have the same 64 bits. *)
Lemma int64_same_bits (i v : Z) :
  - 2 ^ 63 <= i < 2 ^ 63 -> 0 <= v < 2 ^ 64 ->
  i = int64 v <-> i mod 2 ^ 64 = v.
Proof.
  intros Hi Hv. unfold int64.
  pose proof (Z.mod_pos_bound (v + 2 ^ 63) (2 ^ 64) ltac:(lia)).
  pose proof (Z.mod_pos_bound i (2 ^ 64) ltac:(lia)).
  pose proof (Z.div_mod (v + 2 ^ 63) (2 ^ 64) ltac:(lia)).
  pose proof (Z.div_mod i (2 ^ 64) ltac:(lia)).
  split; intros E; nia.
Qed.

Lemma int64_large (v : Z) : 2 ^ 63 <= v < 2 ^ 64 -> int64 v = v - 2 ^ 64.
Proof.
  intros Hv. unfold int64.
  replace (v + 2 ^ 63) with ((v - 2 ^ 63) + 1 * 2 ^ 64) by lia.
  rewrite Z.mod_add by lia. rewrite Z.mod_small by lia. lia.
Qed.

(** ** The span matcher *)

Section MatcherFacts.
Context `{RegexpLib}.

Lemma eqb_empty_false (s : string) : s <> "" -> String.eqb s "" = false.
Proof. intros Hs. now apply String.eqb_neq. Qed.

Lemma trace_matcher_steps h reg query :
  url.Get query "regex" <> "" \/ url.Get query "trace_id" <> "" ->
  trace_matcher h reg query =
  match fnMatcher_of h reg query (url.Get query "regex") with
  | inr err => inr err
  | inl fnMatcher => spanMatcher_of fnMatcher (url.Get query "trace_id")
  end.
Proof.
  intros Hq. unfold trace_matcher.
  destruct Hq as [Hq | Hq]; rewrite (eqb_empty_false _ Hq);
    rewrite ?andb_false_r; reflexivity.
Qed.

Lemma spanMatcher_of_trace_id fnMatcher traceIdStr traceId :
  traceIdStr <> "" ->
  strconv.ParseUint traceIdStr 16 64 = (traceId, None) ->
  spanMatcher_of fnMatcher traceIdStr =
  inl (fun s : Span => (Id (Span_Trace s) =? int64 traceId) && fnMatcher (Span_Func s)).
Proof.
  intros Hs Hp. unfold spanMatcher_of. rewrite (eqb_empty_false _ Hs), Hp. reflexivity.
Qed.

(** C4.  In a trace request whose function matcher was built, a present
    [trace_id] is read by [ParseUint] in base 16 on 64 bits.  When that
    fails, [FromRequest] returns the [BadRequest] error whose argument is
    the string; when it gives [traceId], the value of the hexadecimal
    digits, the span matcher accepts a span exactly when the identifier of
    its trace is [int64 traceId], that is, has the 64 bits of [traceId]
    (and is [traceId] itself below [2^63]), and the function matcher
    accepts its function.  With [trace_id=ff] and no regex
    the spans accepted are those of trace 255; with [trace_id=zz] and no
    regex the request fails with the error citing ["zz"]. *)
Theorem trace_id_is_parsed_in_hex h reg path query fnMatcher :
  first_segment path = "trace" ->
  url.Get query "trace_id" <> "" ->
  fnMatcher_of h reg query (url.Get query "regex") = inl fnMatcher ->
  (forall err,
      (strconv.ParseUint (url.Get query "trace_id") 16 64).2 = Some err ->
      FromRequest h reg path query =
        (Nil, "",
         Some (New BadRequest "trace_id expected to be hex unsigned 64 bit number: %#v"
                   [ArgString (url.Get query "trace_id")])))
  /\ (forall traceId,
      strconv.ParseUint (url.Get query "trace_id") 16 64 = (traceId, None) ->
      hex_value (url.Get query "trace_id") = Some traceId
      /\ 0 <= traceId < 2 ^ 64
      /\ (traceId < 2 ^ 63 -> int64 traceId = traceId)
      /\ exists spanMatcher,
          trace_matcher h reg query = inl spanMatcher
          /\ (forall s, spanMatcher s = true <->
                Id (Span_Trace s) = int64 traceId /\ fnMatcher (Span_Func s) = true)
          /\ (forall s, - 2 ^ 63 <= Id (Span_Trace s) < 2 ^ 63 ->
                (spanMatcher s = true <->
                 Id (Span_Trace s) mod 2 ^ 64 = traceId
                 /\ fnMatcher (Span_Func s) = true)))
  /\ (url.Get query "regex" = "" -> url.Get query "trace_id" = "ff" ->
      exists spanMatcher,
        trace_matcher h reg query = inl spanMatcher
        /\ forall s, spanMatcher s = true <-> Id (Span_Trace s) = 255)
  /\ (url.Get query "regex" = "" -> url.Get query "trace_id" = "zz" ->
      FromRequest h reg path query =
        (Nil, "",
         Some (New BadRequest "trace_id expected to be hex unsigned 64 bit number: %#v"
                   [ArgString "zz"]))).
Proof.
  intros Hf Ht Hm.
  assert (Hbad : forall err,
      (strconv.ParseUint (url.Get query "trace_id") 16 64).2 = Some err ->
      FromRequest h reg path query =
        (Nil, "",
         Some (New BadRequest "trace_id expected to be hex unsigned 64 bit number: %#v"
                   [ArgString (url.Get query "trace_id")]))).
  { intros err He. rewrite (FromRequest_trace _ _ _ _ Hf).
    rewrite trace_matcher_steps by now right. rewrite Hm.
    unfold spanMatcher_of. rewrite (eqb_empty_false _ Ht).
    destruct (strconv.ParseUint _ _ _) as [v [e|]]; [reflexivity | discriminate]. }
  split; [exact Hbad |]. split; [| split].
  - intros traceId Hp.
    pose proof (proj1 (ParseUint_hex _ _) Hp) as [Hv _].
    pose proof (ParseUint_hex_range _ _ Hp) as Hr.
    split; [exact Hv |]. split; [exact Hr |].
    split; [intros; apply int64_small; lia |].
    eexists. split.
    + rewrite trace_matcher_steps by now right. rewrite Hm.
      apply spanMatcher_of_trace_id; eassumption.
    + split.
      * intros s. cbn beta. rewrite andb_true_iff, Z.eqb_eq. reflexivity.
      * intros s Hi. cbn beta.
        rewrite andb_true_iff, Z.eqb_eq, (int64_same_bits _ _ Hi Hr). reflexivity.
  - intros Hr Hff. eexists. split.
    + rewrite trace_matcher_steps by now right.
      unfold fnMatcher_of. rewrite Hr, Hff. cbn [String.eqb negb].
      reflexivity.
    + intros s. cbn beta. rewrite andb_true_r, Z.eqb_eq. reflexivity.
  - intros _ Hzz. rewrite (Hbad (strconv.syntaxError "ParseUint" "zz")).
    + now rewrite Hzz.
    + now rewrite Hzz.
Qed.

(** C10.  A [trace_id] whose hexadecimal value [v] is at least [2^63]
    (and fits 64 bits) is parsed to [v], and the span matcher accepts
    exactly the spans whose trace identifier is the negative number
    [v - 2^64], the [int64] that has the bits of [v], and whose function
    the function matcher accepts. *)
Theorem trace_id_compared_as_int64 h reg query fnMatcher v :
  hex_value (url.Get query "trace_id") = Some v ->
  2 ^ 63 <= v < 2 ^ 64 ->
  fnMatcher_of h reg query (url.Get query "regex") = inl fnMatcher ->
  strconv.ParseUint (url.Get query "trace_id") 16 64 = (v, None)
  /\ int64 v = v - 2 ^ 64
  /\ v - 2 ^ 64 < 0
  /\ exists spanMatcher,
      trace_matcher h reg query = inl spanMatcher
      /\ forall s, spanMatcher s = true <->
           Id (Span_Trace s) = v - 2 ^ 64 /\ fnMatcher (Span_Func s) = true.
Proof.
  intros Hv Hr Hm.
  assert (Hp : strconv.ParseUint (url.Get query "trace_id") 16 64 = (v, None))
    by (apply ParseUint_hex; split; [exact Hv | lia]).
  assert (Ht : url.Get query "trace_id" <> "")
    by (intros E; rewrite E in Hv; discriminate).
  split; [exact Hp |]. split; [now apply int64_large |]. split; [lia |].
  eexists. split.
  - rewrite trace_matcher_steps by now right. rewrite Hm.
    apply spanMatcher_of_trace_id; eassumption.
  - intros s. cbn beta. rewrite andb_true_iff, Z.eqb_eq, int64_large by exact Hr.
    reflexivity.
Qed.

End MatcherFacts.

(** ** Preselection *)

Lemma map_index_insert (funcs : gmap Func bool) (x f : Func) :
  map_index (<[x := true]> funcs) f = true <-> x = f \/ map_index funcs f = true.
Proof.
  unfold map_index. destruct (decide (x = f)) as [-> | Hne].
  - rewrite lookup_insert_eq. cbn. tauto.
  - rewrite lookup_insert_ne by exact Hne. split; [tauto | intros [? | ?]; [contradiction | assumption]].
Qed.

Lemma preselect_fold (fnMatcher : Func -> bool) (known : list Func)
    (funcs : gmap Func bool) (f : Func) :
  map_index
    (foldl (fun funcs f => if fnMatcher f then <[f := true]> funcs else funcs)
           funcs known) f = true
  <-> map_index funcs f = true \/ (f ∈ known /\ fnMatcher f = true).
Proof.
  revert funcs. induction known as [|x known IH]; intros funcs; cbn [foldl].
  - split; [tauto | intros [? | [Hin _]]; [assumption | inversion Hin]].
  - rewrite IH, elem_of_cons. destruct (fnMatcher x) eqn:Hx.
    + rewrite map_index_insert. split.
      * intros [[-> | ?] | [? ?]]; tauto.
      * intros [? | [[-> | ?] ?]]; tauto.
    + split.
      * intros [? | [? ?]]; tauto.
      * intros [? | [[-> | ?] ?]]; [tauto | congruence | tauto].
Qed.

Lemma preselected_spec (fnMatcher : Func -> bool) (known : list Func) (f : Func) :
  map_index (preselected fnMatcher known) f = true
  <-> f ∈ known /\ fnMatcher f = true.
Proof.
  unfold preselected. rewrite preselect_fold. unfold map_index at 1.
  rewrite lookup_empty. cbn. split; [intros [? | ?]; [discriminate | assumption] | tauto].
Qed.

Lemma preselected_none (fnMatcher : Func -> bool) (known : list Func) :
  (forall f, f ∈ known -> fnMatcher f = false) ->
  preselected fnMatcher known = ∅.
Proof.
  unfold preselected. generalize (∅ : gmap Func bool).
  induction known as [|x known IH]; intros funcs Hn; cbn [foldl]; [reflexivity |].
  rewrite (Hn x) by (apply elem_of_cons; now left).
  apply IH. intros f Hf. apply Hn, elem_of_cons. now right.
Qed.

Section PreselectFacts.
Context `{RegexpLib}.

Lemma fnMatcher_of_regex h reg query regexStr :
  regexStr <> "" ->
  fnMatcher_of h reg query regexStr = fnMatcher_regex h reg query regexStr.
Proof. intros Hr. unfold fnMatcher_of. now rewrite (eqb_empty_false _ Hr). Qed.

Lemma FromRequest_fnMatcher_error h reg path query err :
  first_segment path = "trace" ->
  url.Get query "regex" <> "" ->
  fnMatcher_regex h reg query (url.Get query "regex") = inr err ->
  FromRequest h reg path query = (Nil, "", Some err).
Proof.
  intros Hf Hr He. rewrite (FromRequest_trace _ _ _ _ Hf).
  rewrite trace_matcher_steps by now left.
  now rewrite fnMatcher_of_regex, He.
Qed.

(** C5.  With a regex that compiles: when [preselect] is true the
    function matcher accepts exactly the functions that the registry knew
    when the matcher was built and whose full name matches, so a function
    unknown then is rejected also once it is registered; when [preselect]
    is false the function matcher is the match of the compiled regex on
    the full name, so a function unknown at that time is accepted when its
    name matches. *)
Theorem preselect_is_a_snapshot h reg query re :
  url.Get query "regex" <> "" ->
  Compile (url.Get query "regex") = inl re ->
  (preselect_of query = (true, None) ->
   forall fnMatcher,
     fnMatcher_of h reg query (url.Get query "regex") = inl fnMatcher ->
     (forall f, fnMatcher f = true <->
                f ∈ Registry_Funcs h reg /\ MatchString re (FullName f) = true)
     /\ (forall f, f ∉ Registry_Funcs h reg ->
                   f ∈ Registry_Funcs (register reg f h) reg /\ fnMatcher f = false))
  /\ (preselect_of query = (false, None) ->
      exists fnMatcher,
        fnMatcher_of h reg query (url.Get query "regex") = inl fnMatcher
        /\ (forall f, fnMatcher f = MatchString re (FullName f))
        /\ (forall f, f ∉ Registry_Funcs h reg ->
                      MatchString re (FullName f) = true -> fnMatcher f = true)).
Proof.
  intros Hr Hc. rewrite fnMatcher_of_regex by exact Hr.
  unfold fnMatcher_regex. rewrite Hc. split; intros Hp; rewrite Hp.
  - intros fnMatcher Hm.
    destruct (_ <=? 0); [discriminate |]. injection Hm as <-.
    split; [intros f; apply preselected_spec |].
    intros f Hf. split.
    + unfold register, Registry_Funcs at 1. rewrite lookup_insert_eq. cbn.
      apply elem_of_app. right. now apply list_elem_of_singleton.
    + destruct (map_index _ f) eqn:E; [| reflexivity].
      apply preselected_spec in E as [Hin _]. contradiction.
  - eexists. split; [reflexivity |]. split; [reflexivity |]. intros f _ Hf. exact Hf.
Qed.

(** C8.  In a trace request with a regex that compiles: [preselect] is
    true when the query has no value for it; a value that [ParseBool]
    rejects gives the [BadRequest] error whose arguments are that value and
    the parse error; and a preselection that keeps no function, as with a
    registry that knows none, gives the [BadRequest] error
    "regex preselect matches 0 functions". *)
Theorem preselect_default_and_failures h reg path query re :
  first_segment path = "trace" ->
  url.Get query "regex" <> "" ->
  Compile (url.Get query "regex") = inl re ->
  (url.Get query "preselect" = "" -> preselect_of query = (true, None))
  /\ (forall err,
       url.Get query "preselect" <> "" ->
       (strconv.ParseBool (url.Get query "preselect")).2 = Some err ->
       FromRequest h reg path query =
         (Nil, "",
          Some (New BadRequest "invalid preselect %#v: %v"
                    [ArgString (url.Get query "preselect"); ArgError err])))
  /\ (preselect_of query = (true, None) ->
      (forall f, f ∈ Registry_Funcs h reg -> MatchString re (FullName f) = false) ->
      FromRequest h reg path query =
        (Nil, "", Some (New BadRequest "regex preselect matches 0 functions" [])))
  /\ (preselect_of query = (true, None) ->
      Registry_Funcs h reg = [] ->
      FromRequest h reg path query =
        (Nil, "", Some (New BadRequest "regex preselect matches 0 functions" []))).
Proof.
  intros Hf Hr Hc.
  assert (Hzero : preselect_of query = (true, None) ->
      (forall f, f ∈ Registry_Funcs h reg -> MatchString re (FullName f) = false) ->
      FromRequest h reg path query =
        (Nil, "", Some (New BadRequest "regex preselect matches 0 functions" []))).
  { intros Hp Hn. apply (FromRequest_fnMatcher_error _ _ _ _ _ Hf Hr).
    unfold fnMatcher_regex. rewrite Hc, Hp.
    rewrite (preselected_none _ _ Hn). reflexivity. }
  split; [| split; [| split]].
  - intros Hp. unfold preselect_of. now rewrite Hp.
  - intros err Hp He. apply (FromRequest_fnMatcher_error _ _ _ _ _ Hf Hr).
    unfold fnMatcher_regex, preselect_of. rewrite Hc, (eqb_empty_false _ Hp).
    cbn [negb]. destruct (strconv.ParseBool _) as [b [e|]]; cbn in He; [| discriminate].
    injection He as ->. destruct b; reflexivity.
  - exact Hzero.
  - intros Hp He. apply Hzero; [exact Hp |]. rewrite He. intros f Hin. inversion Hin.
Qed.

End PreselectFacts.

(** ** The buffering closure *)

Section BufferingFacts.
Context {S : Type} (sink_Write : S -> bytes -> Z * option error * S).

Lemma take_all (p : bytes) : take (Z.to_nat (len p)) p = p.
Proof. unfold len. rewrite Nat2Z.id. apply firstn_all. Qed.

Lemma len_app (p q : bytes) : len (p ++ q) = len p + len q.
Proof. unfold len. rewrite length_app. lia. Qed.

Lemma Write_with_room (fuel : nat) (b : bufio.Writer) (p : bytes) :
  bufio.err b = None ->
  len p <= bufio.Available b ->
  bufio.Write sink_Write fuel b p =
  Returns (len p, None,
           {| bufio.err := None; bufio.size := bufio.size b;
              bufio.buf := bufio.buf b ++ p; bufio.wr := bufio.wr b |}).
Proof.
  intros He Hp. unfold bufio.Write.
  assert (Hl : bufio.Write_loop sink_Write fuel b p 0 = Returns (b, p, 0)).
  { destruct fuel; cbn [bufio.Write_loop];
      replace (bufio.Available b <? len p) with false
        by (symmetry; apply Z.ltb_ge; lia); reflexivity. }
  rewrite Hl. cbn [exec_bind]. rewrite He. unfold bufio.copy_in.
  rewrite Z.min_r by lia. rewrite take_all, He. reflexivity.
Qed.

Lemma run_fits (fuel : nat) (u : Prog) (b : bufio.Writer) :
  bufio.err b = None ->
  fits u (bufio.Available b) = true ->
  run (bufio.Write sink_Write fuel) u b =
  Returns (outcome u,
           {| bufio.err := None; bufio.size := bufio.size b;
              bufio.buf := bufio.buf b ++ output u; bufio.wr := bufio.wr b |}).
Proof.
  revert b. induction u as [err | p k IH]; intros b He Hf; cbn [run fits output outcome] in *.
  - rewrite app_nil_r. destruct b; cbn in *; subst; reflexivity.
  - apply andb_true_iff in Hf as [Hp Hf]. apply Z.leb_le in Hp.
    rewrite Write_with_room by assumption. cbn [exec_bind].
    rewrite IH; cbn [bufio.err bufio.size bufio.buf bufio.wr]; [| reflexivity |].
    + now rewrite <- app_assoc.
    + unfold bufio.Available in *. cbn [bufio.size bufio.buf]. now rewrite len_app, Z.sub_add_distr.
Qed.

End BufferingFacts.

Section Termination.
Context {S : Type} (sink_Write : S -> bytes -> Z * option error * S).
Hypothesis sink_obeys : obeys_Writer sink_Write.

Lemma len_nonneg (p : bytes) : 0 <= len p.
Proof. unfold len. lia. Qed.

Lemma len_drop (p : bytes) (n : Z) : 0 <= n <= len p -> len (drop (Z.to_nat n) p) = len p - n.
Proof. unfold len. intros Hn. rewrite length_drop. lia. Qed.

Lemma len_take (p : bytes) (n : Z) : 0 <= n <= len p -> len (take (Z.to_nat n) p) = n.
Proof. unfold len. intros Hn. rewrite length_take. lia. Qed.

Lemma Flush_returns (b : bufio.Writer) :
  exists e b',
    bufio.Flush sink_Write b = Returns (e, b')
    /\ bufio.err b' = e
    /\ bufio.size b' = bufio.size b
    /\ len (bufio.buf b') <= len (bufio.buf b)
    /\ (e = None -> bufio.err b = None /\ bufio.buf b' = []).
Proof.
  unfold bufio.Flush, bufio.Buffered.
  destruct (bufio.err b) as [x|] eqn:He.
  { exists (Some x), b. repeat split; try assumption; try lia. all: discriminate. }
  destruct (Z.eqb_spec (len (bufio.buf b)) 0) as [H0 | H0].
  { exists None, b. repeat split; try assumption; try lia.
    destruct (bufio.buf b); [reflexivity | unfold len in H0; cbn [length] in H0; lia]. }
  pose proof (sink_obeys (bufio.wr b) (bufio.buf b)) as Ho.
  destruct (sink_Write (bufio.wr b) (bufio.buf b)) as [[n e] w'].
  destruct Ho as [Hn Hshort].
  replace ((n <? 0) || (len (bufio.buf b) <? n)) with false
    by (symmetry; apply orb_false_iff; split; apply Z.ltb_ge; lia).
  destruct (Z.ltb_spec n (len (bufio.buf b))) as [Hlt | Hge].
  - destruct e as [e|]; [| now specialize (Hshort Hlt)].
    cbn. eexists _, _. split; [reflexivity |]. cbn.
    repeat split; try discriminate. rewrite len_drop by lia. lia.
  - cbn [andb]. destruct e as [e|]; eexists _, _; (split; [reflexivity |]); cbn;
      repeat split; try discriminate; try reflexivity.
    + rewrite len_drop by lia. lia.
    + apply len_nonneg.
Qed.

Lemma Write_loop_stops (fuel : nat) (b : bufio.Writer) (p : bytes) (nn : Z) :
  buf_ok b ->
  (bufio.err b = None -> len p <= bufio.Available b) ->
  bufio.Write_loop sink_Write fuel b p nn = Returns (b, p, nn).
Proof.
  intros Hb Hp.
  assert (Hc : (bufio.Available b <? len p)
               && negb (bool_decide (is_Some (bufio.err b))) = false).
  { destruct (bufio.err b) as [e|].
    - rewrite bool_decide_eq_true_2 by eauto. apply andb_false_r.
    - specialize (Hp eq_refl). apply andb_false_iff. left. apply Z.ltb_ge. lia. }
  destruct fuel; cbn [bufio.Write_loop]; rewrite Hc; reflexivity.
Qed.

Lemma Write_loop_direct (fuel : nat) (b : bufio.Writer) (p : bytes) (nn : Z) :
  buf_ok b -> bufio.Buffered b = 0 -> (1 <= fuel)%nat ->
  exists b' p' nn',
    bufio.Write_loop sink_Write fuel b p nn = Returns (b', p', nn')
    /\ loop_done b b' p'.
Proof.
  intros Hb H0 Hfuel. destruct fuel as [|fuel]; [lia |]. cbn [bufio.Write_loop].
  destruct ((bufio.Available b <? len p)
            && negb (bool_decide (is_Some (bufio.err b)))) eqn:Hc.
  - rewrite H0. cbn [Z.eqb].
    pose proof (sink_obeys (bufio.wr b) p) as Ho.
    destruct (sink_Write (bufio.wr b) p) as [[n e] w']. destruct Ho as [Hn Hshort].
    replace ((n <? 0) || (len p <? n)) with false
      by (symmetry; apply orb_false_iff; split; apply Z.ltb_ge; lia).
    unfold buf_ok, bufio.Buffered in *.
    rewrite Write_loop_stops.
    + eexists _, _, _. split; [reflexivity |]. unfold loop_done, buf_ok, bufio.Available.
      cbn. repeat split; try lia. intros ->.
      rewrite len_drop by lia.
      destruct (Z.ltb_spec n (len p)); [now specialize (Hshort ltac:(assumption)) | lia].
    + unfold buf_ok. cbn. lia.
    + cbn. intros ->. unfold bufio.Available. cbn. rewrite len_drop by lia.
      destruct (Z.ltb_spec n (len p)); [now specialize (Hshort ltac:(assumption)) | lia].
  - eexists _, _, _. split; [reflexivity |]. unfold loop_done.
    repeat split; try assumption. intros He. rewrite He in Hc.
    rewrite bool_decide_eq_false_2 in Hc by (intros [? ?]; discriminate).
    cbn in Hc. rewrite andb_true_r in Hc. apply Z.ltb_ge in Hc. lia.
Qed.

Lemma Write_loop_returns (fuel : nat) (b : bufio.Writer) (p : bytes) (nn : Z) :
  buf_ok b -> (2 <= fuel)%nat ->
  exists b' p' nn',
    bufio.Write_loop sink_Write fuel b p nn = Returns (b', p', nn')
    /\ loop_done b b' p'.
Proof.
  intros Hb Hfuel.
  destruct (Z.eqb_spec (bufio.Buffered b) 0) as [H0 | H0];
    [apply Write_loop_direct; [assumption | assumption | lia] |].
  destruct fuel as [|fuel]; [lia |]. cbn [bufio.Write_loop].
  destruct ((bufio.Available b <? len p)
            && negb (bool_decide (is_Some (bufio.err b)))) eqn:Hc.
  - apply Z.eqb_neq in H0. rewrite H0.
    apply andb_true_iff in Hc as [Hav _]. apply Z.ltb_lt in Hav.
    unfold bufio.copy_in. rewrite Z.min_l by lia.
    set (b1 := {| bufio.err := _; bufio.buf := _ |}).
    destruct (Flush_returns b1) as (e & b2 & Hfl & He & Hsz & Hlen & Hnone).
    rewrite Hfl. cbn [exec_bind].
    assert (Hb1 : len (bufio.buf b1) = bufio.size b).
    { unfold b1, bufio.Available, buf_ok, bufio.Buffered in *. cbn.
      rewrite len_app, len_take; [lia |]. pose proof (len_nonneg (bufio.buf b)). lia. }
    assert (Hb2 : buf_ok b2) by (unfold buf_ok; rewrite Hsz; cbn; lia).
    destruct e as [e|].
    + rewrite Write_loop_stops; [| assumption | rewrite He; discriminate].
      eexists _, _, _. split; [reflexivity |]. unfold loop_done.
      repeat split; [assumption | now rewrite Hsz | rewrite He; discriminate].
    + destruct (Hnone eq_refl) as [_ Hbuf].
      destruct (Write_loop_direct fuel b2 (drop (Z.to_nat (bufio.Available b)) p)
                  (nn + bufio.Available b) Hb2) as (b' & p' & nn' & Hl & Hd1 & Hd2 & Hd3).
      * unfold bufio.Buffered. now rewrite Hbuf.
      * lia.
      * eexists _, _, _. split; [exact Hl |]. unfold loop_done.
        repeat split; [assumption | rewrite Hd2, Hsz; reflexivity | assumption].
  - eexists _, _, _. split; [reflexivity |]. unfold loop_done.
    repeat split; try assumption. intros He. rewrite He in Hc.
    rewrite bool_decide_eq_false_2 in Hc by (intros [? ?]; discriminate).
    cbn in Hc. rewrite andb_true_r in Hc. apply Z.ltb_ge in Hc. lia.
Qed.

Lemma Write_returns (fuel : nat) (b : bufio.Writer) (p : bytes) :
  buf_ok b -> (2 <= fuel)%nat ->
  exists n e b', bufio.Write sink_Write fuel b p = Returns (n, e, b') /\ buf_ok b'.
Proof.
  intros Hb Hfuel. unfold bufio.Write.
  destruct (Write_loop_returns fuel b p 0 Hb Hfuel) as (b' & p' & nn' & Hl & Hok & Hsz & Hfit).
  rewrite Hl. cbn [exec_bind]. destruct (bufio.err b') as [e|] eqn:He.
  - eexists _, _, _. split; [reflexivity | assumption].
  - eexists _, _, _. split; [reflexivity |]. specialize (Hfit eq_refl).
    unfold buf_ok, bufio.Available in *. cbn.
    pose proof (len_nonneg p').
    rewrite len_app, len_take; lia.
Qed.

Lemma run_returns (fuel : nat) (u : Prog) (b : bufio.Writer) :
  buf_ok b -> (2 <= fuel)%nat ->
  exists e b', run (bufio.Write sink_Write fuel) u b = Returns (e, b').
Proof.
  intros Hb Hfuel. revert b Hb. induction u as [err | p k IH]; intros b Hb; cbn [run].
  - eexists _, _. reflexivity.
  - destruct (Write_returns fuel b p Hb Hfuel) as (n & e & b' & Hw & Hb').
    rewrite Hw. cbn [exec_bind]. apply IH, Hb'.
Qed.

End Termination.

Section WrapperFacts.
Context `{RegexpLib} `{Renderers}.
Context {S : Type} (sink_Write : S -> bytes -> Z * option error * S).

Lemma leaf_body (h : Registries) (f : Result) :
  is_leaf f -> exists u, body h f = Some u.
Proof. destruct f; cbn; intros Hl; try contradiction; eexists; reflexivity. Qed.

Lemma FromRequest_success h reg path query f contentType :
  FromRequest h reg path query = (f, contentType, None) ->
  exists unbuffered, f = buffering unbuffered /\ is_leaf unbuffered.
Proof.
  unfold FromRequest, FromRequest_body.
  destruct (shift path) as [first rest]. destruct (shift rest) as [second ?].
  repeat match goal with
    | |- context [if ?c then _ else _] => destruct c
    | |- context [match trace_matcher ?a ?b ?c with _ => _ end] =>
        destruct (trace_matcher a b c)
    end;
    cbn; intros [= <- <-]; eexists; split; reflexivity || exact I.
Qed.

Lemma call_buffering_leaf h fuel unbuffered u (w : S) :
  body h unbuffered = Some u ->
  call sink_Write h fuel (buffering unbuffered) w =
  let* (err, buf) := run (bufio.Write sink_Write fuel) u (bufio.NewWriter w) in
  match err with
  | Some e => Returns (Some e, bufio.wr buf)
  | None =>
      let* (err, buf) := bufio.Flush sink_Write buf in
      Returns (err, bufio.wr buf)
  end.
Proof.
  intros Hb. cbn [call].
  destruct unbuffered; try discriminate; cbn [call_buffered]; rewrite Hb; reflexivity.
Qed.

(** C1, as amended.  The result of a successful [FromRequest] is the
    buffering closure around the closure that was selected.  Called on a
    sink, it runs that closure on a buffer of 4096 bytes over the sink:
    when the inner closure returns an error the call returns it and does
    not flush, and when it returns [nil] the call returns what [Flush]
    returns.  When the writes of the inner closure fit in the buffer, the
    sink is left as it was on an error, and on success it is written once,
    by [Flush], with all the output.  On a sink that keeps the contract of
    [io.Writer], two units of fuel are enough for the call to return. *)
Theorem successful_results_are_buffered h reg path query f contentType :
  FromRequest h reg path query = (f, contentType, None) ->
  exists unbuffered,
    f = buffering unbuffered
    /\ forall (h' : Registries) (fuel : nat) (w : S),
       exists u,
         body h' unbuffered = Some u
         /\ (forall e b,
              run (bufio.Write sink_Write fuel) u (bufio.NewWriter w)
                = Returns (Some e, b) ->
              call sink_Write h' fuel f w = Returns (Some e, bufio.wr b))
         /\ (forall b,
              run (bufio.Write sink_Write fuel) u (bufio.NewWriter w)
                = Returns (None, b) ->
              call sink_Write h' fuel f w =
                let* (err, b') := bufio.Flush sink_Write b in
                Returns (err, bufio.wr b'))
         /\ (fits u bufio.defaultBufSize = true ->
             forall e, outcome u = Some e ->
               call sink_Write h' fuel f w = Returns (Some e, w))
         /\ (fits u bufio.defaultBufSize = true ->
             outcome u = None ->
             call sink_Write h' fuel f w =
               if len (output u) =? 0 then Returns (None, w)
               else
                 let* (err, b') :=
                   bufio.Flush sink_Write
                     {| bufio.err := None; bufio.size := bufio.defaultBufSize;
                        bufio.buf := output u; bufio.wr := w |} in
                 Returns (err, bufio.wr b'))
         /\ (obeys_Writer sink_Write -> (2 <= fuel)%nat ->
             exists err w', call sink_Write h' fuel f w = Returns (err, w')).
Proof.
  intros Hd. destruct (FromRequest_success _ _ _ _ _ _ Hd) as (unbuffered & -> & Hl).
  exists unbuffered. split; [reflexivity |]. intros h' fuel w.
  destruct (leaf_body h' _ Hl) as [u Hu]. exists u. split; [exact Hu |].
  rewrite (call_buffering_leaf _ _ _ _ _ Hu).
  split; [| split; [| split; [| split]]].
  - intros e b Hr. rewrite Hr. reflexivity.
  - intros b Hr. rewrite Hr. reflexivity.
  - intros Hf e He. rewrite run_fits by (reflexivity || exact Hf).
    cbn [exec_bind]. rewrite He. reflexivity.
  - intros Hf He. rewrite run_fits by (reflexivity || exact Hf).
    cbn [exec_bind]. rewrite He. cbn [bufio.NewWriter bufio.buf bufio.size bufio.wr app].
    destruct (len (output u) =? 0) eqn:E; [| reflexivity].
    unfold bufio.Flush, bufio.Buffered. cbn [bufio.err bufio.buf]. rewrite E. reflexivity.
  - intros Ho Hfuel.
    destruct (run_returns sink_Write Ho fuel u (bufio.NewWriter w)) as (e & b & Hr);
      [unfold buf_ok, bufio.NewWriter, bufio.defaultBufSize, len; cbn [bufio.buf bufio.size length];
       lia | exact Hfuel |].
    rewrite Hr. cbn [exec_bind]. destruct e as [e|]; [eexists _, _; reflexivity |].
    destruct (Flush_returns sink_Write Ho b) as (e' & b' & Hfl & _).
    rewrite Hfl. eexists _, _. reflexivity.
Qed.

End WrapperFacts.

(** ** Closed instances *)

Lemma trace_matcher_failure_is_bad_request_witness :
  first_segment "/trace/json" = "trace"
  /\ trace_matcher ∅ Toy.reg ∅ = inr Toy.both_missing
  /\ FromRequest ∅ Toy.reg "/trace/json" ∅ = (Nil, "", Some Toy.both_missing).
Proof.
  split; [reflexivity |]. split; [reflexivity |].
  refine (proj1 (trace_matcher_failure_is_bad_request ∅ Toy.reg "/trace/json" ∅
                   Toy.both_missing _ _)); reflexivity.
Defined.

Lemma unknown_selector_not_found_witness :
  in_table (first_segment "/trace") (second_segment "/trace") = false
  /\ (exists m, trace_matcher ∅ Toy.reg (Toy.query1 "trace_id" "ff") = inl m)
  /\ FromRequest ∅ Toy.reg "/trace" (Toy.query1 "trace_id" "ff") = not_found "/trace".
Proof.
  assert (Hm : exists m, trace_matcher ∅ Toy.reg (Toy.query1 "trace_id" "ff") = inl m)
    by (eexists; reflexivity).
  split; [reflexivity |]. split; [exact Hm |].
  refine (unknown_selector_not_found ∅ Toy.reg "/trace" (Toy.query1 "trace_id" "ff")
            _ (fun _ => Hm)); reflexivity.
Defined.

Example bogus_not_found (h : Registries) (reg : Registry) (query : url.Values) :
  FromRequest h reg "/bogus" query = not_found "/bogus".
Proof. reflexivity. Qed.

Lemma trace_without_subformat_can_be_bad_request :
  exists err,
    FromRequest ∅ Toy.reg "/trace" ∅ = (Nil, "", Some err)
    /\ error_class err = Some BadRequest
    /\ error_class err <> Some NotFound.
Proof.
  exists Toy.both_missing. split; [reflexivity |]. split; [reflexivity | discriminate].
Qed.

Lemma table_pairs_dispatch_witness :
  in_table (first_segment "/trace/svg") (second_segment "/trace/svg") = true
  /\ (exists m, trace_matcher ∅ Toy.reg (Toy.query1 "trace_id" "ff") = inl m)
  /\ exists unbuffered,
       FromRequest ∅ Toy.reg "/trace/svg" (Toy.query1 "trace_id" "ff") =
         (buffering unbuffered, "image/svg+xml; charset=utf-8", None)
       /\ unbuffered <> Nil.
Proof.
  assert (Hm : exists m, trace_matcher ∅ Toy.reg (Toy.query1 "trace_id" "ff") = inl m)
    by (eexists; reflexivity).
  split; [reflexivity |]. split; [exact Hm |].
  refine (table_pairs_dispatch ∅ Toy.reg "/trace/svg" (Toy.query1 "trace_id" "ff")
            _ (fun _ => Hm)); reflexivity.
Defined.

Lemma content_type_carries_charset :
  in_table "trace" "svg" = true
  /\ media_type "trace" "svg" = "image/svg+xml"
  /\ (FromRequest ∅ Toy.reg "/trace/svg" (Toy.query1 "trace_id" "ff")).1.2
       = "image/svg+xml; charset=utf-8"
  /\ (FromRequest ∅ Toy.reg "/trace/svg" (Toy.query1 "trace_id" "ff")).1.2
       <> media_type "trace" "svg".
Proof. repeat split; try reflexivity. discriminate. Qed.

Lemma empty_subformat_is_text_witness :
  first_segment "//stats" = "stats"
  /\ second_segment "//stats" = ""
  /\ FromRequest ∅ Toy.reg "//stats" (Toy.query1 "prefix" "mem")
       = FromRequest ∅ Toy.reg "stats/text" (Toy.query1 "prefix" "mem").
Proof.
  split; [reflexivity |]. split; [reflexivity |].
  refine (proj1 (empty_subformat_is_text ∅ Toy.reg "//stats"
                   (Toy.query1 "prefix" "mem") (or_intror (or_intror _)) _));
    reflexivity.
Defined.

Lemma successful_results_are_buffered_witness :
  FromRequest ∅ Toy.reg "/ps" ∅
    = (buffering (curry Toy.reg SpansText), "text/plain; charset=utf-8", None)
  /\ call (H := Toy.renderers (Toy.write_then_fail 4096)) Toy.keep ∅ 0
       (buffering (curry Toy.reg SpansText)) []
     = Returns (Some Toy.render_failed, []).
Proof.
  split; [reflexivity |].
  destruct (successful_results_are_buffered
              (H0 := Toy.renderers (Toy.write_then_fail 4096)) Toy.keep
              ∅ Toy.reg "/ps" ∅ (buffering (curry Toy.reg SpansText))
              "text/plain; charset=utf-8" eq_refl)
    as (unbuffered & Heq & Hall).
  destruct (Hall ∅ O []) as (u & Hu & _ & _ & Hfail & _ & _).
  injection Heq as <-. injection Hu as <-.
  apply Hfail; reflexivity.
Defined.

Lemma buffering_passes_bytes_on_error :
  FromRequest ∅ Toy.reg "/ps" ∅
    = (buffering (curry Toy.reg SpansText), "text/plain; charset=utf-8", None)
  /\ (exists b,
        call_buffered (H := Toy.renderers (Toy.write_then_fail 4097)) Toy.keep ∅ 1
          (curry Toy.reg SpansText) (bufio.NewWriter [])
        = Returns (Some Toy.render_failed, b))
  /\ call (H := Toy.renderers (Toy.write_then_fail 4097)) Toy.keep ∅ 1
       (buffering (curry Toy.reg SpansText)) []
     = Returns (Some Toy.render_failed, repeat Byte.x2a 4097)
  /\ len (repeat Byte.x2a 4097) = 4097.
Proof.
  split; [reflexivity |]. split; [eexists; vm_compute; reflexivity |].
  split; vm_compute; reflexivity.
Qed.

Example flush_error_is_returned :
  call (H := Toy.renderers (DoWrite [Byte.x2a] (fun _ err => Return err)))
    Toy.closed ∅ 0 (buffering (curry Toy.reg SpansText)) []
  = Returns (Some (OtherError "closed"), []).
Proof. reflexivity. Qed.

Example sink_failure_after_write_through :
  call (H := Toy.renderers (Toy.write_twice 4097)) Toy.takes ∅ 2
    (buffering (curry Toy.reg SpansText)) (1%nat, [])
  = Returns (Some (OtherError "closed"), (O, repeat Byte.x2a 4097)).
Proof. vm_compute. reflexivity. Qed.

Lemma trace_id_is_parsed_in_hex_witness :
  first_segment "/trace/json" = "trace"
  /\ url.Get (Toy.query1 "trace_id" "ff") "trace_id" <> ""
  /\ fnMatcher_of ∅ Toy.reg (Toy.query1 "trace_id" "ff")
       (url.Get (Toy.query1 "trace_id" "ff") "regex") = inl (fun _ => true)
  /\ exists spanMatcher,
       trace_matcher ∅ Toy.reg (Toy.query1 "trace_id" "ff") = inl spanMatcher
       /\ forall s, spanMatcher s = true <-> Id (Span_Trace s) = 255.
Proof.
  assert (Hne : url.Get (Toy.query1 "trace_id" "ff") "trace_id" <> "")
    by (vm_compute; discriminate).
  split; [reflexivity |]. split; [exact Hne |]. split; [reflexivity |].
  refine (proj1 (proj2 (proj2 (trace_id_is_parsed_in_hex ∅ Toy.reg "/trace/json"
            (Toy.query1 "trace_id" "ff") (fun _ => true) _ Hne _))) _ _);
    reflexivity.
Defined.

Lemma trace_id_compared_as_int64_witness :
  hex_value (url.Get (Toy.query1 "trace_id" "ffffffffffffffff") "trace_id")
    = Some (2 ^ 64 - 1)
  /\ 2 ^ 63 <= 2 ^ 64 - 1 < 2 ^ 64
  /\ fnMatcher_of ∅ Toy.reg (Toy.query1 "trace_id" "ffffffffffffffff")
       (url.Get (Toy.query1 "trace_id" "ffffffffffffffff") "regex")
     = inl (fun _ => true)
  /\ exists spanMatcher,
       trace_matcher ∅ Toy.reg (Toy.query1 "trace_id" "ffffffffffffffff")
         = inl spanMatcher
       /\ spanMatcher (Toy.span Toy.Bar (-1)) = true.
Proof.
  split; [reflexivity |]. split; [lia |]. split; [reflexivity |].
  destruct (trace_id_compared_as_int64 ∅ Toy.reg
              (Toy.query1 "trace_id" "ffffffffffffffff") (fun _ => true)
              (2 ^ 64 - 1)) as (_ & _ & _ & spanMatcher & Hm & Hiff);
    [reflexivity | lia | reflexivity |].
  exists spanMatcher. split; [exact Hm |]. apply Hiff. split; reflexivity.
Defined.

Example all_ones_matches_minus_one :
  exists spanMatcher,
    trace_matcher ∅ Toy.reg (Toy.query1 "trace_id" "ffffffffffffffff") = inl spanMatcher
    /\ spanMatcher (Toy.span Toy.Foo (-1)) = true
    /\ spanMatcher (Toy.span Toy.Foo (2 ^ 63 - 1)) = false.
Proof. eexists. split; [reflexivity |]. split; reflexivity. Qed.

Lemma preselect_is_a_snapshot_witness :
  url.Get (Toy.query1 "regex" ".*") "regex" <> ""
  /\ Compile (url.Get (Toy.query1 "regex" ".*") "regex") = inl Toy.Any
  /\ preselect_of (Toy.query1 "regex" ".*") = (true, None)
  /\ forall fnMatcher,
       fnMatcher_of {[ Toy.reg := [Toy.Bar] ]} Toy.reg (Toy.query1 "regex" ".*")
         (url.Get (Toy.query1 "regex" ".*") "regex") = inl fnMatcher ->
       Toy.Foo ∈ Registry_Funcs (register Toy.reg Toy.Foo {[ Toy.reg := [Toy.Bar] ]}) Toy.reg
       /\ fnMatcher Toy.Foo = false.
Proof.
  assert (Hne : url.Get (Toy.query1 "regex" ".*") "regex" <> "")
    by (vm_compute; discriminate).
  split; [exact Hne |]. split; [reflexivity |]. split; [reflexivity |].
  intros fnMatcher Hm.
  refine (proj2 (proj1 (preselect_is_a_snapshot {[ Toy.reg := [Toy.Bar] ]} Toy.reg
            (Toy.query1 "regex" ".*") Toy.Any Hne _) _ fnMatcher Hm) Toy.Foo _);
    try reflexivity.
  vm_compute. intros Hin. apply list_elem_of_singleton in Hin. discriminate.
Defined.

Example late_function_matches_without_preselect :
  exists spanMatcher,
    trace_matcher ∅ Toy.reg (Toy.two "regex" "^Foo$" "preselect" "false")
      = inl spanMatcher
    /\ Registry_Funcs ∅ Toy.reg = []
    /\ spanMatcher (Toy.span Toy.Foo 7) = true
    /\ spanMatcher (Toy.span Toy.Bar 7) = false.
Proof. eexists. split; [reflexivity |]. repeat split; reflexivity. Qed.

Lemma preselect_default_and_failures_witness :
  first_segment "/trace/json" = "trace"
  /\ url.Get (Toy.query1 "regex" ".*") "regex" <> ""
  /\ Compile (url.Get (Toy.query1 "regex" ".*") "regex") = inl Toy.Any
  /\ FromRequest ∅ Toy.reg "/trace/json" (Toy.query1 "regex" ".*") =
       (Nil, "", Some (New BadRequest "regex preselect matches 0 functions" [])).
Proof.
  assert (Hne : url.Get (Toy.query1 "regex" ".*") "regex" <> "")
    by (vm_compute; discriminate).
  split; [reflexivity |]. split; [exact Hne |]. split; [reflexivity |].
  refine (proj2 (proj2 (proj2 (preselect_default_and_failures ∅ Toy.reg "/trace/json"
            (Toy.query1 "regex" ".*") Toy.Any _ Hne _))) _ _); reflexivity.
Defined.

Example preselect_maybe_is_bad_request :
  FromRequest ∅ Toy.reg "/trace/json" (Toy.two "regex" ".*" "preselect" "maybe") =
    (Nil, "",
     Some (New BadRequest "invalid preselect %#v: %v"
               [ArgString "maybe";
                ArgError (strconv.syntaxError "ParseBool" "maybe")])).
Proof. reflexivity. Qed.

(** * Further properties *)

(** ** More on [shift] *)

Lemma TrimLeft_no_slash (s : string) :
  has_slash s = false -> GoStrings.TrimLeft s "/" = s.
Proof.
  destruct s as [|c s]; [reflexivity |]. rewrite has_slash_cons, TrimLeft_cons.
  destruct (Ascii.eqb_spec c "/") as [-> | Hc]; [discriminate |].
  intros _. destruct (Ascii.eqb_spec "/" c); [congruence | reflexivity].
Qed.

Lemma TrimLeft_slashes_app (k : nat) (p : string) :
  GoStrings.TrimLeft (slashes k +:+ p) "/" = GoStrings.TrimLeft p "/".
Proof.
  induction k as [|k IH]; [reflexivity |].
  change (slashes (Datatypes.S k) +:+ p) with (String "/" (slashes k +:+ p)).
  rewrite TrimLeft_cons. exact IH.
Qed.

Lemma index_no_slash (s : string) :
  has_slash s = false -> String.index 0 "/" s = None.
Proof.
  induction s as [|c s IH]; [reflexivity |]. rewrite has_slash_cons.
  destruct (Ascii.eqb_spec c "/") as [-> | Hc]; [discriminate |]. intros Hs.
  cbn [String.index String.prefix].
  destruct (ascii_dec "/" c) as [<- | _]; [congruence |].
  now rewrite (IH Hs).
Qed.

Lemma index_after_segment (a r : string) :
  has_slash a = false ->
  String.index 0 "/" (a +:+ String "/" r) = Some (String.length a).
Proof.
  induction a as [|c a IH].
  - intros _. cbn [String.append String.index String.prefix String.length].
    destruct (ascii_dec "/" "/"); [| congruence]. now destruct r.
  - rewrite has_slash_cons.
    destruct (Ascii.eqb_spec c "/") as [-> | Hc]; [discriminate |]. intros Hs.
    change (String c a +:+ String "/" r) with (String c (a +:+ String "/" r)).
    cbn [String.index String.prefix String.length].
    destruct (ascii_dec "/" c) as [<- | _]; [congruence |].
    now rewrite (IH Hs).
Qed.

Lemma substring_prefix (a x : string) :
  String.substring 0 (String.length a) (a +:+ x) = a.
Proof.
  induction a as [|c a IH]; [now destruct x |].
  change (String c a +:+ x) with (String c (a +:+ x)).
  cbn [String.length String.substring]. now rewrite IH.
Qed.

Lemma substring_suffix (a x : string) :
  String.substring (String.length a)
    (String.length (a +:+ x) - String.length a) (a +:+ x) = x.
Proof.
  induction a as [|c a IH].
  - cbn [String.append String.length]. rewrite Nat.sub_0_r. apply substring_all.
  - change (String c a +:+ x) with (String c (a +:+ x)).
    cbn [String.length String.substring Nat.sub]. exact IH.
Qed.

Lemma shift_no_slash (s : string) : has_slash s = false -> shift s = (s, "").
Proof.
  intros Hs. unfold shift, GoStrings.Index.
  rewrite (TrimLeft_no_slash _ Hs), (index_no_slash _ Hs). reflexivity.
Qed.

Lemma shift_decomposition (path : string) :
  exists k : nat,
    path = slashes k +:+ (shift path).1 +:+ (shift path).2
    /\ has_slash (shift path).1 = false
    /\ ((shift path).1 = "" -> (shift path).2 = "").
Proof.
  destruct (TrimLeft_slashes path) as (k & Hk & Ht).
  exists k. unfold shift, GoStrings.Index, GoStrings.slice_to, GoStrings.slice_from.
  set (t := GoStrings.TrimLeft path "/") in *.
  pose proof (index_slash t) as Hi.
  destruct (String.index 0 "/" t) as [i|].
  - destruct Hi as (Hd & l & Hl & Ht').
    replace (Z.of_nat i =? -1) with false by (symmetry; apply Z.eqb_neq; lia).
    cbn [fst snd]. rewrite Nat2Z.id, Hl, <- Ht'.
    repeat split; [exact Hk | exact Hd |].
    intros H0. rewrite H0 in Ht'. cbn in Ht'.
    destruct Ht as [Ht | (c & t' & Ht & Hc)]; rewrite Ht in Ht'; [discriminate |].
    injection Ht' as -> _. congruence.
  - cbn [fst snd]. replace (-1 =? -1) with true by reflexivity. cbn [fst snd].
    repeat split; [| exact Hi].
    rewrite append_empty_r. exact Hk.
Qed.

Lemma length_append (a b : string) :
  String.length (a +:+ b) = (String.length a + String.length b)%nat.
Proof.
  induction a as [|c a IH]; [reflexivity |].
  change (String c a +:+ b) with (String c (a +:+ b)). cbn [String.length].
  now rewrite IH.
Qed.

Lemma length_slashes (k : nat) : String.length (slashes k) = k.
Proof. induction k as [|k IH]; [reflexivity | cbn; now rewrite IH]. Qed.

Lemma TrimLeft_segment (a x : string) :
  has_slash a = false -> a <> "" ->
  GoStrings.TrimLeft (a +:+ x) "/" = a +:+ x.
Proof.
  destruct a as [|c a]; [congruence |]. rewrite has_slash_cons.
  destruct (Ascii.eqb_spec c "/") as [-> | Hc]; [discriminate |]. intros _ _.
  change (String c a +:+ x) with (String c (a +:+ x)). rewrite TrimLeft_cons.
  destruct (Ascii.eqb_spec "/" c); [congruence | reflexivity].
Qed.

(** X1.  Leading slashes do not count: [shift] gives the same pair for a
    path and for the path with any number of slashes put before it. *)
Theorem shift_ignores_leading_slashes (k : nat) (path : string) :
  shift (slashes k +:+ path) = shift path.
Proof. unfold shift. now rewrite TrimLeft_slashes_app. Qed.

(** X2.  Joining and shifting: a non-empty segment without a slash, put
    after any leading slashes and before a remainder that starts with a
    slash, is what [shift] gives back, with that remainder; with nothing
    after the segment the remainder is empty. *)
Theorem shift_of_joined_segments (k : nat) (a r : string) :
  has_slash a = false ->
  a <> "" ->
  shift (slashes k +:+ a +:+ String "/" r) = (a, String "/" r)
  /\ shift (slashes k +:+ a) = (a, "").
Proof.
  intros Hs Ha. split; unfold shift; rewrite TrimLeft_slashes_app.
  - rewrite (TrimLeft_segment _ _ Hs Ha). unfold GoStrings.Index.
    rewrite (index_after_segment _ _ Hs).
    replace (Z.of_nat (String.length a) =? -1) with false
      by (symmetry; apply Z.eqb_neq; lia).
    unfold GoStrings.slice_to, GoStrings.slice_from. rewrite Nat2Z.id.
    now rewrite substring_prefix, substring_suffix.
  - rewrite (TrimLeft_no_slash _ Hs). unfold GoStrings.Index.
    now rewrite (index_no_slash _ Hs).
Qed.

Lemma shift_of_joined_segments_witness :
  has_slash "trace" = false
  /\ "trace" <> ""
  /\ shift (slashes 2 +:+ "trace" +:+ String "/" "svg/x") = ("trace", "/svg/x").
Proof.
  assert (Hne : "trace" <> "") by discriminate.
  split; [reflexivity |]. split; [exact Hne |].
  refine (proj1 (shift_of_joined_segments 2 "trace" "svg/x" _ Hne)). reflexivity.
Defined.

(** X3.  Shifting consumes the path: the two parts together are never
    longer than the path, the remainder of a non-empty path is shorter
    than the path, and a first segment shifted again is itself with
    nothing left. *)
Theorem shift_consumes_the_path (path : string) :
  (String.length (shift path).1 + String.length (shift path).2
     <= String.length path)%nat
  /\ (path <> "" -> (String.length (shift path).2 < String.length path)%nat)
  /\ shift (shift path).1 = ((shift path).1, "").
Proof.
  destruct (shift_decomposition path) as (k & Hp & Hs & He).
  assert (Hl : String.length path =
               (k + (String.length (shift path).1
                     + String.length (shift path).2))%nat).
  { rewrite Hp at 1. now rewrite !length_append, length_slashes. }
  split; [lia |]. split; [| now apply shift_no_slash].
  intros Hne.
  destruct (shift path).1 as [|c d] eqn:Hd.
  - rewrite (He eq_refl) in *. cbn [String.length] in *.
    destruct path; [congruence | cbn [String.length]; lia].
  - cbn [String.length] in Hl. lia.
Qed.

(** ** More on dispatch *)

Section MoreDispatch.
Context `{RegexpLib}.

Ltac split_path path :=
  let first := fresh "first" in
  let rest := fresh "rest" in
  let second := fresh "second" in
  destruct (shift path) as [first rest];
  cbn [fst snd] in *;
  destruct (shift rest) as [second ?];
  cbn [fst snd] in *.

Ltac all_cases :=
  repeat match goal with
    | |- context [if ?c then _ else _] => destruct c
    | |- context [match trace_matcher ?a ?b ?c with _ => _ end] =>
        destruct (trace_matcher a b c)
    end.

(** X4.  What [FromRequest] returns is one of three things: a buffering
    closure around a selected closure, with one of the three content types
    and no error; the [NotFound] error of the path with a nil result and an
    empty content type; or, only when the first segment is [trace], a
    [BadRequest] error with a nil result and an empty content type. *)
Theorem FromRequest_returns_result_or_error h reg path query :
  (exists unbuffered contentType,
      FromRequest h reg path query = (buffering unbuffered, contentType, None)
      /\ is_leaf unbuffered
      /\ (contentType = "text/plain; charset=utf-8"
          \/ contentType = "application/json; charset=utf-8"
          \/ contentType = "image/svg+xml; charset=utf-8"))
  \/ FromRequest h reg path query = not_found path
  \/ (exists err,
        FromRequest h reg path query = (Nil, "", Some err)
        /\ error_class err = Some BadRequest
        /\ first_segment path = "trace").
Proof.
  destruct (string_dec (first_segment path) "trace") as [Hf | Hf].
  - rewrite (FromRequest_trace _ _ _ _ Hf).
    destruct (trace_matcher h reg query) as [m | err] eqn:Hm.
    + all_cases; [left | left | right; left; reflexivity];
        eexists _, _; (split; [reflexivity |]); (split; [exact I |]); tauto.
    + right; right. exists err. split; [reflexivity |].
      split; [eapply trace_matcher_bad_request; eassumption | exact Hf].
  - unfold FromRequest, FromRequest_body, first_segment in *. split_path path.
    destruct (String.eqb_spec first "trace") as [-> | _]; [congruence |].
    all_cases;
      first [ right; left; reflexivity
            | left; eexists _, _; (split; [reflexivity |]); (split; [exact I |]); tauto ].
Qed.

(** X5.  Only the first two segments are looked at: two paths with the
    same first and second segment give the same result, content type and
    error, except that the [NotFound] error carries the path it was asked
    for. *)
Theorem FromRequest_reads_two_segments h reg path path' query :
  first_segment path = first_segment path' ->
  second_segment path = second_segment path' ->
  FromRequest h reg path query = FromRequest h reg path' query
  \/ (FromRequest h reg path query = not_found path
      /\ FromRequest h reg path' query = not_found path').
Proof.
  unfold FromRequest, FromRequest_body, first_segment, second_segment.
  split_path path. split_path path'. intros <- <-.
  all_cases; first [left; reflexivity | right; split; reflexivity].
Qed.

(** X6.  The query is read through [Get] at four keys only: two queries
    whose first values agree for [prefix], [regex], [trace_id] and
    [preselect] give the same outcome, whatever else they hold. *)
Theorem FromRequest_reads_four_keys h reg path query query' :
  url.Get query "prefix" = url.Get query' "prefix" ->
  url.Get query "regex" = url.Get query' "regex" ->
  url.Get query "trace_id" = url.Get query' "trace_id" ->
  url.Get query "preselect" = url.Get query' "preselect" ->
  FromRequest h reg path query = FromRequest h reg path query'.
Proof.
  intros Hp Hr Ht Hs.
  unfold FromRequest, FromRequest_body, trace_matcher, fnMatcher_of,
    fnMatcher_regex, preselect_of.
  now rewrite Hp, Hr, Ht, Hs.
Qed.

(** X7.  The store of the registries is read only to preselect: a request
    outside [trace], or without a regex, or whose [preselect] is not true,
    gives the same outcome whatever the registries know. *)
Theorem FromRequest_reads_store_only_to_preselect h h' reg path query :
  first_segment path <> "trace"
  \/ url.Get query "regex" = ""
  \/ preselect_of query <> (true, None) ->
  FromRequest h reg path query = FromRequest h' reg path query.
Proof.
  intros Hc.
  assert (Hm : first_segment path = "trace" ->
               trace_matcher h reg query = trace_matcher h' reg query).
  { intros Hf. destruct Hc as [Hc | [Hc | Hc]]; [congruence | |];
      unfold trace_matcher, fnMatcher_of, fnMatcher_regex.
    - rewrite Hc. reflexivity.
    - destruct (preselect_of query) as [[] [e|]]; try reflexivity. congruence. }
  destruct (string_dec (first_segment path) "trace") as [Hf | Hf].
  - now rewrite !(FromRequest_trace _ _ _ _ Hf), (Hm Hf).
  - unfold FromRequest, FromRequest_body, first_segment in *. split_path path.
    destruct (String.eqb_spec first "trace") as [-> | _]; [congruence |].
    reflexivity.
Qed.

(** X8.  In a trace request, a regex that does not compile gives the
    [BadRequest] error whose arguments are the regex and the error of the
    compiler, before [preselect], [trace_id] and the second segment are
    looked at. *)
Theorem invalid_regex_is_bad_request h reg path query err :
  first_segment path = "trace" ->
  url.Get query "regex" <> "" ->
  Compile (url.Get query "regex") = inr err ->
  FromRequest h reg path query =
    (Nil, "",
     Some (New BadRequest "invalid regex %#v: %v"
               [ArgString (url.Get query "regex"); ArgError err])).
Proof.
  intros Hf Hr Hc. apply (FromRequest_fnMatcher_error _ _ _ _ _ Hf Hr).
  unfold fnMatcher_regex. now rewrite Hc.
Qed.

Lemma Get_insert_ne (query : url.Values) (k k' : string) (vs : list string) :
  k <> k' -> url.Get (<[k := vs]> query) k' = url.Get query k'.
Proof. intros Hk. unfold url.Get. now rewrite lookup_insert_ne. Qed.

(** X9.  Without a regex the [preselect] parameter is not looked at: any
    values put for it, also ones that are no boolean, leave the outcome as
    it is. *)
Theorem preselect_ignored_without_regex h reg path query (vs : list string) :
  url.Get query "regex" = "" ->
  FromRequest h reg path (<["preselect" := vs]> query)
  = FromRequest h reg path query.
Proof.
  intros Hr.
  unfold FromRequest, FromRequest_body, trace_matcher, fnMatcher_of.
  rewrite !Get_insert_ne by discriminate. rewrite Hr. reflexivity.
Qed.

End MoreDispatch.

Lemma FromRequest_reads_two_segments_witness :
  first_segment "/trace/json" = first_segment "//trace/json/extra/segments"
  /\ second_segment "/trace/json" = second_segment "//trace/json/extra/segments"
  /\ FromRequest ∅ Toy.reg "/trace/json" (Toy.query1 "trace_id" "ff")
     = FromRequest ∅ Toy.reg "//trace/json/extra/segments" (Toy.query1 "trace_id" "ff").
Proof.
  split; [reflexivity |]. split; [reflexivity |].
  destruct (FromRequest_reads_two_segments ∅ Toy.reg "/trace/json"
              "//trace/json/extra/segments" (Toy.query1 "trace_id" "ff")
              eq_refl eq_refl) as [Heq | [Hnf _]].
  - exact Heq.
  - discriminate Hnf.
Defined.

Lemma FromRequest_reads_four_keys_witness :
  url.Get (Toy.two "verbose" "1" "trace_id" "ff") "prefix"
    = url.Get (<["trace_id" := ["ff"; "zz"]]> ∅) "prefix"
  /\ url.Get (Toy.two "verbose" "1" "trace_id" "ff") "regex"
    = url.Get (<["trace_id" := ["ff"; "zz"]]> ∅) "regex"
  /\ url.Get (Toy.two "verbose" "1" "trace_id" "ff") "trace_id"
    = url.Get (<["trace_id" := ["ff"; "zz"]]> ∅) "trace_id"
  /\ url.Get (Toy.two "verbose" "1" "trace_id" "ff") "preselect"
    = url.Get (<["trace_id" := ["ff"; "zz"]]> ∅) "preselect"
  /\ FromRequest ∅ Toy.reg "/trace/svg" (Toy.two "verbose" "1" "trace_id" "ff")
     = FromRequest ∅ Toy.reg "/trace/svg" (<["trace_id" := ["ff"; "zz"]]> ∅).
Proof.
  repeat (split; [reflexivity |]).
  apply FromRequest_reads_four_keys; reflexivity.
Defined.

Lemma FromRequest_reads_store_only_to_preselect_witness :
  (first_segment "/trace/json" <> "trace"
   \/ url.Get (Toy.two "regex" "^Foo$" "preselect" "false") "regex" = ""
   \/ preselect_of (Toy.two "regex" "^Foo$" "preselect" "false") <> (true, None))
  /\ FromRequest ∅ Toy.reg "/trace/json" (Toy.two "regex" "^Foo$" "preselect" "false")
     = FromRequest {[ Toy.reg := [Toy.Foo; Toy.Bar] ]} Toy.reg "/trace/json"
         (Toy.two "regex" "^Foo$" "preselect" "false").
Proof.
  assert (Hc : first_segment "/trace/json" <> "trace"
   \/ url.Get (Toy.two "regex" "^Foo$" "preselect" "false") "regex" = ""
   \/ preselect_of (Toy.two "regex" "^Foo$" "preselect" "false") <> (true, None))
    by (right; right; vm_compute; discriminate).
  split; [exact Hc |].
  apply (FromRequest_reads_store_only_to_preselect ∅ _ Toy.reg "/trace/json" _ Hc).
Defined.

Lemma invalid_regex_is_bad_request_witness :
  first_segment "/trace/svg" = "trace"
  /\ url.Get (Toy.two "regex" "(" "trace_id" "zz") "regex" <> ""
  /\ Compile (url.Get (Toy.two "regex" "(" "trace_id" "zz") "regex")
     = inr (OtherError "error parsing regexp")
  /\ FromRequest ∅ Toy.reg "/trace/svg" (Toy.two "regex" "(" "trace_id" "zz") =
       (Nil, "",
        Some (New BadRequest "invalid regex %#v: %v"
                  [ArgString "("; ArgError (OtherError "error parsing regexp")])).
Proof.
  assert (Hne : url.Get (Toy.two "regex" "(" "trace_id" "zz") "regex" <> "")
    by (vm_compute; discriminate).
  split; [reflexivity |]. split; [exact Hne |]. split; [reflexivity |].
  refine (invalid_regex_is_bad_request ∅ Toy.reg "/trace/svg"
            (Toy.two "regex" "(" "trace_id" "zz") _ _ Hne _); reflexivity.
Defined.

Lemma preselect_ignored_without_regex_witness :
  url.Get (Toy.query1 "trace_id" "ff") "regex" = ""
  /\ FromRequest ∅ Toy.reg "/trace/json"
       (<["preselect" := ["maybe"]]> (Toy.query1 "trace_id" "ff"))
     = FromRequest ∅ Toy.reg "/trace/json" (Toy.query1 "trace_id" "ff").
Proof.
  split; [reflexivity |].
  apply preselect_ignored_without_regex. reflexivity.
Defined.

(** ** More on the matchers *)

Lemma preselected_size (fnMatcher : Func -> bool) (known : list Func) :
  size (preselected fnMatcher known) <> O
  <-> exists f, f ∈ known /\ fnMatcher f = true.
Proof.
  split.
  - intros Hs. destruct (existsb fnMatcher known) eqn:He.
    + apply existsb_exists in He as (f & Hin & Hf). exists f.
      split; [now apply list_elem_of_In | exact Hf].
    + exfalso. apply Hs. rewrite preselected_none; [apply map_size_empty |].
      intros f Hin. apply list_elem_of_In in Hin.
      destruct (fnMatcher f) eqn:Hf; [| reflexivity].
      assert (Hex : existsb fnMatcher known = true)
        by (apply existsb_exists; eauto).
      congruence.
  - intros (f & Hin & Hf) Hs. apply map_size_empty_iff in Hs.
    pose proof (proj2 (preselected_spec fnMatcher known f) (conj Hin Hf)) as Hm.
    rewrite Hs in Hm. unfold map_index in Hm. rewrite lookup_empty in Hm.
    discriminate.
Qed.

Lemma Registry_Funcs_register (h : Registries) (reg : Registry) (g : Func) :
  Registry_Funcs (register reg g h) reg = Registry_Funcs h reg ++ [g].
Proof. unfold register, Registry_Funcs at 1. now rewrite lookup_insert_eq. Qed.

Section MoreMatchers.
Context `{RegexpLib}.

Lemma fnMatcher_preselected h reg query re :
  url.Get query "regex" <> "" ->
  Compile (url.Get query "regex") = inl re ->
  preselect_of query = (true, None) ->
  fnMatcher_of h reg query (url.Get query "regex") =
  let funcs := preselected (fun f => MatchString re (FullName f))
                           (Registry_Funcs h reg) in
  if Z.of_nat (size funcs) <=? 0
  then inr (New BadRequest "regex preselect matches 0 functions" [])
  else inl (fun f => map_index funcs f).
Proof.
  intros Hr Hc Hp. rewrite fnMatcher_of_regex by exact Hr.
  unfold fnMatcher_regex. now rewrite Hc, Hp.
Qed.

(** X10.  With a regex that compiles and [preselect] true, the function
    matcher is built exactly when some function the registry knows has a
    full name that matches; the matcher then accepts that function. *)
Theorem preselect_succeeds_iff_some_function_matches h reg query re :
  url.Get query "regex" <> "" ->
  Compile (url.Get query "regex") = inl re ->
  preselect_of query = (true, None) ->
  ((exists f, f ∈ Registry_Funcs h reg /\ MatchString re (FullName f) = true)
   <-> exists fnMatcher,
         fnMatcher_of h reg query (url.Get query "regex") = inl fnMatcher)
  /\ (forall f fnMatcher,
        f ∈ Registry_Funcs h reg -> MatchString re (FullName f) = true ->
        fnMatcher_of h reg query (url.Get query "regex") = inl fnMatcher ->
        fnMatcher f = true).
Proof.
  intros Hr Hc Hp. rewrite (fnMatcher_preselected _ _ _ _ Hr Hc Hp). cbn zeta.
  pose proof (preselected_size (fun f => MatchString re (FullName f))
                (Registry_Funcs h reg)) as Hs.
  split; [split |].
  - intros Hex. apply Hs in Hex.
    replace (Z.of_nat _ <=? 0) with false by (symmetry; apply Z.leb_gt; lia).
    eexists. reflexivity.
  - intros [fnMatcher Hm]. apply Hs.
    destruct (Z.leb_spec (Z.of_nat (size (preselected
               (fun f => MatchString re (FullName f)) (Registry_Funcs h reg)))) 0);
      [discriminate | lia].
  - intros f fnMatcher Hin Hf Hm.
    destruct (_ <=? 0); [discriminate |]. injection Hm as <-.
    apply preselected_spec. split; assumption.
Qed.

(** X11.  Preselection only grows with the registry: when the function
    matcher could be built, it can also be built after one more function
    is registered, and the later matcher accepts all that the earlier one
    accepts, and the new function when its full name matches. *)
Theorem preselect_grows_with_registry h reg query re g fnMatcher :
  url.Get query "regex" <> "" ->
  Compile (url.Get query "regex") = inl re ->
  preselect_of query = (true, None) ->
  fnMatcher_of h reg query (url.Get query "regex") = inl fnMatcher ->
  exists fnMatcher',
    fnMatcher_of (register reg g h) reg query (url.Get query "regex")
      = inl fnMatcher'
    /\ (forall f, fnMatcher f = true -> fnMatcher' f = true)
    /\ (MatchString re (FullName g) = true -> fnMatcher' g = true).
Proof.
  intros Hr Hc Hp.
  rewrite !(fnMatcher_preselected _ _ _ _ Hr Hc Hp). cbn zeta.
  rewrite Registry_Funcs_register. intros Hm.
  set (fm := fun f => MatchString re (FullName f)) in *.
  destruct (Z.leb_spec (Z.of_nat (size (preselected fm (Registry_Funcs h reg)))) 0)
    as [Hz | Hz]; [discriminate |]. injection Hm as <-.
  assert (Hold : size (preselected fm (Registry_Funcs h reg)) <> O) by lia.
  apply preselected_size in Hold as (f0 & Hin0 & Hf0).
  assert (Hnew : size (preselected fm (Registry_Funcs h reg ++ [g])) <> O).
  { apply preselected_size. exists f0. split; [| exact Hf0].
    apply elem_of_app. now left. }
  replace (Z.of_nat (size (preselected fm (Registry_Funcs h reg ++ [g]))) <=? 0)
    with false by (symmetry; apply Z.leb_gt; lia).
  eexists. split; [reflexivity |]. split.
  - intros f Hf. apply preselected_spec in Hf as [Hin Hf].
    apply preselected_spec. split; [| exact Hf]. apply elem_of_app. now left.
  - intros Hg. apply preselected_spec. split; [| exact Hg].
    apply elem_of_app. right. now apply list_elem_of_singleton.
Qed.

(** X12.  A trace identifier counts by its value, not by how it is
    spelled: two queries with the same [regex] and [preselect] whose
    [trace_id] strings are hexadecimal for the same number below [2^64]
    give the same span matcher. *)
Theorem trace_id_counts_by_value h reg query query' v :
  url.Get query "regex" = url.Get query' "regex" ->
  url.Get query "preselect" = url.Get query' "preselect" ->
  hex_value (url.Get query "trace_id") = Some v ->
  hex_value (url.Get query' "trace_id") = Some v ->
  v < 2 ^ 64 ->
  trace_matcher h reg query = trace_matcher h reg query'.
Proof.
  intros Hr Hs Hv Hv' Hlt.
  assert (Hne : forall s, hex_value s = Some v -> s <> "")
    by (intros s E ->; discriminate).
  rewrite !trace_matcher_steps by (right; eauto).
  assert (Hf : fnMatcher_of h reg query (url.Get query "regex")
               = fnMatcher_of h reg query' (url.Get query' "regex")).
  { unfold fnMatcher_of, fnMatcher_regex, preselect_of. now rewrite Hr, Hs. }
  rewrite Hf. destruct (fnMatcher_of h reg query' _) as [fnMatcher | e];
    [| reflexivity].
  rewrite (spanMatcher_of_trace_id fnMatcher _ v (Hne _ Hv))
    by (apply ParseUint_hex; split; assumption).
  rewrite (spanMatcher_of_trace_id fnMatcher _ v (Hne _ Hv'))
    by (apply ParseUint_hex; split; assumption).
  reflexivity.
Qed.

End MoreMatchers.

Lemma preselect_succeeds_iff_some_function_matches_witness :
  url.Get (Toy.query1 "regex" "^Foo$") "regex" <> ""
  /\ Compile (url.Get (Toy.query1 "regex" "^Foo$") "regex") = inl (Toy.Exact "Foo")
  /\ preselect_of (Toy.query1 "regex" "^Foo$") = (true, None)
  /\ exists fnMatcher,
       fnMatcher_of {[ Toy.reg := [Toy.Bar; Toy.Foo] ]} Toy.reg
         (Toy.query1 "regex" "^Foo$") (url.Get (Toy.query1 "regex" "^Foo$") "regex")
       = inl fnMatcher.
Proof.
  assert (Hne : url.Get (Toy.query1 "regex" "^Foo$") "regex" <> "")
    by (vm_compute; discriminate).
  split; [exact Hne |]. split; [reflexivity |]. split; [reflexivity |].
  refine (proj1 (proj1 (preselect_succeeds_iff_some_function_matches
            {[ Toy.reg := [Toy.Bar; Toy.Foo] ]} Toy.reg (Toy.query1 "regex" "^Foo$")
            (Toy.Exact "Foo") Hne _ _)) _); try reflexivity.
  exists Toy.Foo. split; [| reflexivity].
  vm_compute. apply list_elem_of_In. right. left. reflexivity.
Defined.

Lemma preselect_grows_with_registry_witness :
  url.Get (Toy.query1 "regex" ".*") "regex" <> ""
  /\ Compile (url.Get (Toy.query1 "regex" ".*") "regex") = inl Toy.Any
  /\ preselect_of (Toy.query1 "regex" ".*") = (true, None)
  /\ (exists fnMatcher,
        fnMatcher_of {[ Toy.reg := [Toy.Bar] ]} Toy.reg (Toy.query1 "regex" ".*")
          (url.Get (Toy.query1 "regex" ".*") "regex") = inl fnMatcher)
  /\ exists fnMatcher',
       fnMatcher_of (register Toy.reg Toy.Foo {[ Toy.reg := [Toy.Bar] ]}) Toy.reg
         (Toy.query1 "regex" ".*") (url.Get (Toy.query1 "regex" ".*") "regex")
       = inl fnMatcher'
       /\ fnMatcher' Toy.Foo = true.
Proof.
  assert (Hne : url.Get (Toy.query1 "regex" ".*") "regex" <> "")
    by (vm_compute; discriminate).
  split; [exact Hne |]. split; [reflexivity |]. split; [reflexivity |].
  assert (Hm0 : exists fnMatcher,
        fnMatcher_of {[ Toy.reg := [Toy.Bar] ]} Toy.reg (Toy.query1 "regex" ".*")
          (url.Get (Toy.query1 "regex" ".*") "regex") = inl fnMatcher)
    by (eexists; reflexivity).
  split; [exact Hm0 |]. destruct Hm0 as [fnMatcher Hm0].
  destruct (preselect_grows_with_registry (H := Toy.regexp_lib)
              {[ Toy.reg := [Toy.Bar] ]} Toy.reg
              (Toy.query1 "regex" ".*") Toy.Any Toy.Foo fnMatcher Hne
              eq_refl eq_refl Hm0)
    as (fnMatcher' & Hm & _ & Hg).
  exists fnMatcher'. split; [exact Hm | apply Hg; reflexivity].
Defined.

Lemma trace_id_counts_by_value_witness :
  url.Get (Toy.query1 "trace_id" "ff") "regex"
    = url.Get (Toy.query1 "trace_id" "00FF") "regex"
  /\ url.Get (Toy.query1 "trace_id" "ff") "preselect"
    = url.Get (Toy.query1 "trace_id" "00FF") "preselect"
  /\ hex_value (url.Get (Toy.query1 "trace_id" "ff") "trace_id") = Some 255
  /\ hex_value (url.Get (Toy.query1 "trace_id" "00FF") "trace_id") = Some 255
  /\ 255 < 2 ^ 64
  /\ trace_matcher ∅ Toy.reg (Toy.query1 "trace_id" "ff")
     = trace_matcher ∅ Toy.reg (Toy.query1 "trace_id" "00FF").
Proof.
  repeat (split; [reflexivity || lia |]).
  apply (trace_id_counts_by_value ∅ Toy.reg _ _ 255); reflexivity || lia.
Defined.

Section MoreTraceId.
Context `{RegexpLib}.

(** X14.  With no [trace_id], a span is judged by its function alone:
    the span matcher is the function matcher applied to the function of
    the span, so spans on one function get one answer whatever their
    traces are. *)
Theorem without_trace_id_only_the_function_counts h reg query fnMatcher :
  url.Get query "regex" <> "" ->
  url.Get query "trace_id" = "" ->
  fnMatcher_of h reg query (url.Get query "regex") = inl fnMatcher ->
  exists spanMatcher,
    trace_matcher h reg query = inl spanMatcher
    /\ (forall s, spanMatcher s = fnMatcher (Span_Func s))
    /\ (forall s s', Span_Func s = Span_Func s' -> spanMatcher s = spanMatcher s').
Proof.
  intros Hr Ht Hm. rewrite trace_matcher_steps by now left.
  rewrite Hm. unfold spanMatcher_of. rewrite Ht. cbn [String.eqb negb].
  eexists. split; [reflexivity |]. split; [reflexivity |].
  intros s s' Hs. cbn beta. now rewrite Hs.
Qed.

(** X15.  In a trace request whose function matcher was built, a
    [trace_id] that is not a string of hexadecimal digits, or whose value
    does not fit 64 bits, gives the [BadRequest] error whose argument is
    the string. *)
Theorem trace_id_out_of_range_is_bad_request h reg path query fnMatcher :
  first_segment path = "trace" ->
  url.Get query "trace_id" <> "" ->
  fnMatcher_of h reg query (url.Get query "regex") = inl fnMatcher ->
  (hex_value (url.Get query "trace_id") = None
   \/ exists v, hex_value (url.Get query "trace_id") = Some v /\ 2 ^ 64 <= v) ->
  FromRequest h reg path query =
    (Nil, "",
     Some (New BadRequest "trace_id expected to be hex unsigned 64 bit number: %#v"
               [ArgString (url.Get query "trace_id")])).
Proof.
  intros Hf Ht Hm Hv. rewrite (FromRequest_trace _ _ _ _ Hf).
  rewrite trace_matcher_steps by now right. rewrite Hm.
  unfold spanMatcher_of. rewrite (eqb_empty_false _ Ht). cbn [negb].
  destruct (strconv.ParseUint (url.Get query "trace_id") 16 64) as [n [e|]] eqn:Hp;
    [reflexivity |].
  apply ParseUint_hex in Hp as [Hn Hlt].
  destruct Hv as [Hv | (v & Hv & Hge)]; rewrite Hv in Hn; [discriminate |].
  injection Hn as <-. lia.
Qed.

End MoreTraceId.

Lemma without_trace_id_only_the_function_counts_witness :
  url.Get (Toy.two "regex" "^Foo$" "preselect" "false") "regex" <> ""
  /\ url.Get (Toy.two "regex" "^Foo$" "preselect" "false") "trace_id" = ""
  /\ exists spanMatcher,
       trace_matcher ∅ Toy.reg (Toy.two "regex" "^Foo$" "preselect" "false")
         = inl spanMatcher
       /\ spanMatcher (Toy.span Toy.Foo 1) = spanMatcher (Toy.span Toy.Foo (-5)).
Proof.
  assert (Hne : url.Get (Toy.two "regex" "^Foo$" "preselect" "false") "regex" <> "")
    by (vm_compute; discriminate).
  split; [exact Hne |]. split; [reflexivity |].
  destruct (without_trace_id_only_the_function_counts (H := Toy.regexp_lib) ∅ Toy.reg
              (Toy.two "regex" "^Foo$" "preselect" "false")
              (fun f => Toy.matches (Toy.Exact "Foo") (FullName f))
              Hne eq_refl eq_refl)
    as (spanMatcher & Hm & _ & Hsame).
  exists spanMatcher. split; [exact Hm | apply Hsame; reflexivity].
Defined.

Lemma trace_id_out_of_range_is_bad_request_witness :
  first_segment "/trace/json" = "trace"
  /\ url.Get (Toy.query1 "trace_id" "10000000000000000") "trace_id" <> ""
  /\ fnMatcher_of ∅ Toy.reg (Toy.query1 "trace_id" "10000000000000000")
       (url.Get (Toy.query1 "trace_id" "10000000000000000") "regex")
     = inl (fun _ => true)
  /\ hex_value (url.Get (Toy.query1 "trace_id" "10000000000000000") "trace_id")
     = Some (2 ^ 64)
  /\ FromRequest ∅ Toy.reg "/trace/json" (Toy.query1 "trace_id" "10000000000000000") =
       (Nil, "",
        Some (New BadRequest "trace_id expected to be hex unsigned 64 bit number: %#v"
                  [ArgString "10000000000000000"])).
Proof.
  assert (Hne : url.Get (Toy.query1 "trace_id" "10000000000000000") "trace_id" <> "")
    by (vm_compute; discriminate).
  split; [reflexivity |]. split; [exact Hne |]. split; [reflexivity |].
  split; [reflexivity |].
  refine (trace_id_out_of_range_is_bad_request ∅ Toy.reg "/trace/json"
            (Toy.query1 "trace_id" "10000000000000000") (fun _ => true)
            _ Hne _ (or_intror (ex_intro _ (2 ^ 64) (conj _ _))));
    reflexivity || lia.
Defined.

(** ** More on the buffering closure *)

Section Transparency.
Context {S : Type} (sink_Write : S -> bytes -> Z * option error * S).
Context (contents : S -> bytes).
Hypothesis sink_accepts : accepts_all sink_Write contents.

Lemma Flush_accepted (b : bufio.Writer) :
  bufio.err b = None ->
  exists b',
    bufio.Flush sink_Write b = Returns (None, b')
    /\ bufio.err b' = None /\ bufio.buf b' = [] /\ bufio.size b' = bufio.size b
    /\ contents (bufio.wr b') = contents (bufio.wr b) ++ bufio.buf b.
Proof.
  intros He. unfold bufio.Flush, bufio.Buffered. rewrite He.
  destruct (Z.eqb_spec (len (bufio.buf b)) 0) as [H0 | H0].
  - exists b. assert (Hb : bufio.buf b = []).
    { destruct (bufio.buf b); [reflexivity |].
      unfold len in H0; cbn [length] in H0; lia. }
    rewrite Hb, app_nil_r. repeat split; assumption.
  - destruct (sink_accepts (bufio.wr b) (bufio.buf b)) as (w' & Hw & Hc).
    rewrite Hw.
    replace ((len (bufio.buf b) <? 0) || (len (bufio.buf b) <? len (bufio.buf b)))
      with false
      by (symmetry; apply orb_false_iff; split; apply Z.ltb_ge;
          [apply len_nonneg | lia]).
    rewrite Z.ltb_irrefl. cbn [andb].
    eexists. split; [reflexivity |]. cbn. repeat split. exact Hc.
Qed.

Lemma Write_loop_step (fuel : nat) (b : bufio.Writer) (p : bytes) (nn : Z) :
  bufio.Write_loop sink_Write (Datatypes.S fuel) b p nn =
  if (bufio.Available b <? len p) && negb (bool_decide (is_Some (bufio.err b))) then
    if bufio.Buffered b =? 0 then
      let '(n, e, w') := sink_Write (bufio.wr b) p in
      if (n <? 0) || (len p <? n) then BadCount
      else
        bufio.Write_loop sink_Write fuel
          {| bufio.err := e; bufio.size := bufio.size b;
             bufio.buf := bufio.buf b; bufio.wr := w' |}
          (drop (Z.to_nat n) p) (nn + n)
    else
      let '(n, b) := bufio.copy_in b p in
      let* (_, b) := bufio.Flush sink_Write b in
      bufio.Write_loop sink_Write fuel b (drop (Z.to_nat n) p) (nn + n)
  else Returns (b, p, nn).
Proof. reflexivity. Qed.

Lemma Write_loop_direct_accepted (fuel : nat) (b : bufio.Writer) (p : bytes) (nn : Z) :
  bufio.err b = None -> bufio.buf b = [] -> 0 <= bufio.size b ->
  bufio.size b < len p ->
  exists w',
    bufio.Write_loop sink_Write (Datatypes.S fuel) b p nn =
      Returns ({| bufio.err := None; bufio.size := bufio.size b;
                  bufio.buf := []; bufio.wr := w' |}, [], nn + len p)
    /\ contents w' = contents (bufio.wr b) ++ p.
Proof.
  intros He Hb Hs Hp. rewrite Write_loop_step.
  unfold bufio.Available, bufio.Buffered. rewrite He, Hb.
  change (len []) with 0. rewrite Z.sub_0_r.
  replace (bufio.size b <? len p) with true by (symmetry; apply Z.ltb_lt; lia).
  rewrite bool_decide_eq_false_2 by (intros [? ?]; discriminate).
  cbn [andb negb Z.eqb].
  destruct (sink_accepts (bufio.wr b) p) as (w' & Hw & Hc). rewrite Hw.
  replace ((len p <? 0) || (len p <? len p)) with false
    by (symmetry; apply orb_false_iff; split; apply Z.ltb_ge;
        [apply len_nonneg | lia]).
  replace (drop (Z.to_nat (len p)) p) with (@nil Byte.byte)
    by (unfold len; rewrite Nat2Z.id; symmetry; apply drop_all).
  exists w'. split; [| exact Hc].
  apply Write_loop_stops.
  - unfold buf_ok. cbn. exact Hs.
  - intros _. unfold bufio.Available. cbn. change (len []) with 0. lia.
Qed.

Lemma Write_accepted (fuel : nat) (b : bufio.Writer) (p : bytes) :
  bufio.err b = None -> buf_ok b -> (2 <= fuel)%nat ->
  exists b',
    bufio.Write sink_Write fuel b p = Returns (len p, None, b')
    /\ bufio.err b' = None /\ buf_ok b' /\ bufio.size b' = bufio.size b
    /\ contents (bufio.wr b') ++ bufio.buf b'
       = contents (bufio.wr b) ++ bufio.buf b ++ p.
Proof.
  intros He Hb Hfuel.
  destruct (Z.leb_spec (len p) (bufio.Available b)) as [Hroom | Hfull].
  { rewrite Write_with_room by assumption. eexists. split; [reflexivity |].
    cbn. unfold buf_ok, bufio.Available in *. cbn. rewrite len_app.
    repeat split; lia. }
  destruct fuel as [|fuel]; [lia |]. destruct fuel as [|fuel]; [lia |].
  unfold bufio.Write.
  destruct (Z.eqb_spec (bufio.Buffered b) 0) as [H0 | H0].
  - assert (Hbuf : bufio.buf b = []).
    { unfold bufio.Buffered in H0. destruct (bufio.buf b); [reflexivity |].
      unfold len in H0; cbn [length] in H0; lia. }
    unfold buf_ok, bufio.Available in *. rewrite Hbuf in *. change (len []) with 0 in *.
    destruct (Write_loop_direct_accepted (Datatypes.S fuel) b p 0 He Hbuf)
      as (w' & Hl & Hc); [lia | lia |].
    rewrite Hl. cbn [exec_bind bufio.err]. unfold bufio.copy_in, bufio.Available.
    cbn [bufio.size bufio.buf bufio.err bufio.wr]. change (len []) with 0.
    rewrite Z.min_r by lia. rewrite take_nil. cbn [app].
    eexists. split; [f_equal; f_equal; f_equal; lia |]. unfold buf_ok. cbn.
    change (len []) with 0.
    repeat split; [lia |]. now rewrite Hc, !app_nil_r.
  - rewrite Write_loop_step.
    replace (bufio.Available b <? len p) with true by (symmetry; apply Z.ltb_lt; lia).
    rewrite He. rewrite bool_decide_eq_false_2 by (intros [? ?]; discriminate).
    cbn [andb negb]. apply Z.eqb_neq in H0. rewrite H0.
    unfold bufio.copy_in. rewrite Z.min_l by lia.
    set (n := bufio.Available b) in *.
    assert (Hn : 0 <= n) by (unfold n, bufio.Available, buf_ok in *; lia).
    set (b1 := {| bufio.err := _; bufio.buf := _ |}).
    destruct (Flush_accepted b1) as (b2 & Hfl & He2 & Hb2 & Hs2 & Hc2); [exact He |].
    rewrite Hfl. cbn [exec_bind].
    assert (Hsz : 0 <= bufio.size b2).
    { rewrite Hs2. cbn. unfold buf_ok in Hb. pose proof (len_nonneg (bufio.buf b)). lia. }
    destruct (Z.leb_spec (len (drop (Z.to_nat n) p)) (bufio.size b2)) as [Hfit | Hbig].
    + rewrite Write_loop_stops;
        [| unfold buf_ok; rewrite Hb2; exact Hsz
         | intros _; unfold bufio.Available; rewrite Hb2; change (len []) with 0; lia].
      cbn [exec_bind]. rewrite He2. unfold bufio.copy_in, bufio.Available.
      rewrite Hb2. change (len []) with 0. rewrite Z.sub_0_r, Z.min_r by lia.
      rewrite take_all. cbn [app].
      eexists. split; [f_equal; f_equal; f_equal; rewrite len_drop; lia |]. cbn.
      unfold buf_ok. cbn. repeat split; [exact Hfit | now rewrite Hs2 |].
      rewrite Hc2. unfold b1. cbn. rewrite <- !app_assoc. now rewrite take_drop.
    + destruct (Write_loop_direct_accepted fuel b2 (drop (Z.to_nat n) p) (0 + n)
                  He2 Hb2 Hsz Hbig) as (w' & Hl & Hc).
      rewrite Hl. cbn [exec_bind bufio.err]. unfold bufio.copy_in, bufio.Available.
      cbn [bufio.size bufio.buf bufio.err bufio.wr]. change (len []) with 0.
      rewrite Z.min_r by lia. rewrite take_nil. cbn [app].
      eexists. split; [f_equal; f_equal; f_equal; rewrite len_drop; lia |]. cbn.
      unfold buf_ok. cbn. repeat split; [exact Hsz | now rewrite Hs2 |].
      rewrite Hc, Hc2, app_nil_r. unfold b1. cbn.
      rewrite <- !app_assoc. now rewrite take_drop.
Qed.

Lemma run_accepted (fuel : nat) (u : Prog) (b : bufio.Writer) :
  bufio.err b = None -> buf_ok b -> (2 <= fuel)%nat ->
  exists b',
    run (bufio.Write sink_Write fuel) u b = Returns (outcome u, b')
    /\ bufio.err b' = None
    /\ contents (bufio.wr b') ++ bufio.buf b'
       = contents (bufio.wr b) ++ bufio.buf b ++ output u.
Proof.
  intros He Hb Hfuel. revert b He Hb.
  induction u as [err | p k IH]; intros b He Hb; cbn [run outcome output].
  - exists b. rewrite app_nil_r. repeat split. exact He.
  - destruct (Write_accepted fuel b p He Hb Hfuel) as (b1 & Hw & He1 & Hb1 & _ & Hc1).
    rewrite Hw. cbn [exec_bind].
    destruct (IH (len p) None b1 He1 Hb1) as (b' & Hr & He' & Hc').
    exists b'. split; [exact Hr |]. split; [exact He' |].
    rewrite Hc', app_assoc, Hc1. now rewrite <- !app_assoc.
Qed.

Lemma run_unbuffered_accepted (u : Prog) (w : S) :
  exists w',
    run (fun w p => Returns (sink_Write w p)) u w = Returns (outcome u, w')
    /\ contents w' = contents w ++ output u.
Proof.
  revert w. induction u as [err | p k IH]; intros w; cbn [run outcome output].
  - exists w. now rewrite app_nil_r.
  - destruct (sink_accepts w p) as (w1 & Hw & Hc). rewrite Hw. cbn [exec_bind].
    destruct (IH (len p) None w1) as (w' & Hr & Hc').
    exists w'. split; [exact Hr |]. rewrite Hc', Hc. now rewrite <- app_assoc.
Qed.

Context `{RegexpLib} `{Renderers}.

(** X13.  Buffering changes no byte.  On a sink that takes every write,
    the result of a successful [FromRequest], called with two units of
    fuel or more, returns what the selected closure returns.  When that is
    [nil], the sink has been given all the output of the closure, in
    order, the same bytes as when the closure is called on the sink
    itself; when it is an error, the sink has been given a prefix of that
    output and nothing else. *)
Theorem buffering_keeps_the_output h reg path query f contentType
    (h' : Registries) (fuel : nat) (w : S) :
  FromRequest h reg path query = (f, contentType, None) ->
  (2 <= fuel)%nat ->
  exists unbuffered u w1 w2,
    f = buffering unbuffered
    /\ body h' unbuffered = Some u
    /\ call sink_Write h' fuel f w = Returns (outcome u, w1)
    /\ call sink_Write h' fuel unbuffered w = Returns (outcome u, w2)
    /\ contents w2 = contents w ++ output u
    /\ (outcome u = None -> contents w1 = contents w2)
    /\ exists rest, contents w1 ++ rest = contents w ++ output u.
Proof.
  intros Hd Hfuel.
  destruct (FromRequest_success _ _ _ _ _ _ Hd) as (unbuffered & -> & Hl).
  destruct (leaf_body h' _ Hl) as [u Hu].
  destruct (run_unbuffered_accepted u w) as (w2 & Hr2 & Hc2).
  assert (Hcall2 : call sink_Write h' fuel unbuffered w = Returns (outcome u, w2)).
  { destruct unbuffered; try contradiction; cbn [call]; rewrite Hu; exact Hr2. }
  destruct (run_accepted fuel u (bufio.NewWriter w)) as (b & Hr & He & Hc);
    [reflexivity
    | unfold buf_ok, bufio.NewWriter, bufio.defaultBufSize, len;
      cbn [bufio.buf bufio.size length]; lia
    | exact Hfuel |].
  cbn [bufio.NewWriter bufio.wr bufio.buf app] in Hc.
  rewrite (call_buffering_leaf _ _ _ _ _ _ Hu), Hr. cbn [exec_bind].
  destruct (outcome u) as [e|] eqn:Ho.
  - exists unbuffered, u, (bufio.wr b), w2. rewrite Ho.
    split; [reflexivity |]. split; [exact Hu |]. split; [reflexivity |].
    split; [exact Hcall2 |]. split; [exact Hc2 |]. split; [discriminate |].
    exists (bufio.buf b). exact Hc.
  - destruct (Flush_accepted b He) as (b' & Hfl & _ & _ & _ & Hc').
    rewrite Hfl. cbn [exec_bind].
    exists unbuffered, u, (bufio.wr b'), w2. rewrite Ho.
    split; [reflexivity |]. split; [exact Hu |]. split; [reflexivity |].
    split; [exact Hcall2 |]. split; [exact Hc2 |]. split.
    + intros _. now rewrite Hc', Hc, Hc2.
    + exists []. now rewrite app_nil_r, Hc', Hc.
Qed.

End Transparency.

Lemma keep_accepts_all : accepts_all Toy.keep (fun s => s).
Proof. intros w p. exists (w ++ p). split; reflexivity. Qed.

Lemma buffering_keeps_the_output_witness :
  accepts_all Toy.keep (fun s => s)
  /\ FromRequest ∅ Toy.reg "/funcs/json" ∅
     = (buffering (curry Toy.reg FuncsJSON), "application/json; charset=utf-8", None)
  /\ (2 <= 2)%nat
  /\ exists w1 rest,
       call (H := Toy.renderers (Toy.write_twice 3000)) Toy.keep ∅ 2
         (buffering (curry Toy.reg FuncsJSON)) []
       = Returns (None, w1)
       /\ w1 ++ rest = output (Toy.write_twice 3000).
Proof.
  split; [exact keep_accepts_all |]. split; [reflexivity |]. split; [lia |].
  destruct (buffering_keeps_the_output Toy.keep (fun s => s) keep_accepts_all
              (H0 := Toy.renderers (Toy.write_twice 3000))
              ∅ Toy.reg "/funcs/json" ∅ (buffering (curry Toy.reg FuncsJSON))
              "application/json; charset=utf-8" ∅ 2%nat [] eq_refl (le_n 2))
    as (unbuffered & u & w1 & w2 & Hf & Hu & Hc1 & _ & _ & _ & rest & Hrest).
  injection Hf as <-. injection Hu as <-.
  exists w1, rest. split; [exact Hc1 | exact Hrest].
Defined.
